(** * The Tetris engine of [tetris.py], embedded in Rocq

    The game logic of [src/tetris.py] (classes [Piece] and [Tetris]) is
    translated function by function.  Python integers are [Z]; the board is
    a list of rows, each a list of cells, indexed with Python's rules
    (negative indices count from the end, anything else out of range raises
    [IndexError]); a cell is [None] or a colour string.  Methods that mutate
    [self] become functions from a state to a [result] carrying the next
    state.  The random draw of [new_piece] is an argument of the commands
    that may draw.  The [Game] table of the persistence layer is a list of
    rows, the newest last.  Canvas drawing only reads the state: the
    rectangles of the grid, the piece and the ghost are a list, the text of
    the HUD is left out, and so is the [played_at] time stamp of a stored
    row.  The [users] collection is the list of its documents. *)

From Stdlib Require Import ZArith Lia.
From stdpp Require Import base numbers list strings gmap sorting.

Local Open Scope Z_scope.

(** ** Results: a value, [IndexError], or a loop out of fuel *)

Inductive result (A : Type) : Type :=
  | Ok (a : A)
  | IndexError
  | OutOfFuel.
Arguments Ok {A} a.
Arguments IndexError {A}.
Arguments OutOfFuel {A}.

#[global] Instance result_bind : MBind result := fun A B f m =>
  match m with
  | Ok a => f a
  | IndexError => IndexError
  | OutOfFuel => OutOfFuel
  end.

(** ** Python sequence indexing *)

Module Py.

(** The position [l[i]] refers to in a sequence of length [n]. *)
Definition index (n : nat) (i : Z) : result nat :=
  if 0 <=? i then
    if i <? Z.of_nat n then Ok (Z.to_nat i) else IndexError
  else
    if - Z.of_nat n <=? i then Ok (Z.to_nat (Z.of_nat n + i)) else IndexError.

Definition getitem {A} (l : list A) (i : Z) : result A :=
  k ← index (length l) i;
  match l !! k with
  | Some a => Ok a
  | None => IndexError
  end.

Definition setitem {A} (l : list A) (i : Z) (v : A) : result (list A) :=
  k ← index (length l) i; Ok (<[k := v]> l).

Definition delitem {A} (l : list A) (i : Z) : result (list A) :=
  k ← index (length l) i; Ok (delete k l).

(** [range(n)] *)
Definition range (n : Z) : list Z := Z.of_nat <$> seq 0 (Z.to_nat n).

End Py.

(** ** Constants and the shape table *)

Definition COLS : Z := 10.
Definition ROWS : Z := 20.
Definition START_DELAY : Z := 500.
Definition LEVEL_STEP : Z := 40.
Definition LINES_PER_LEVEL : Z := 10.

Inductive Kind : Type := KI | KJ | KL | KO | KS | KT | KZ.

Definition SHAPES (k : Kind) : list (list (Z * Z)) :=
  match k with
  | KI => [ [(0, 1); (1, 1); (2, 1); (3, 1)]; [(2, 0); (2, 1); (2, 2); (2, 3)] ]
  | KJ => [ [(0, 0); (0, 1); (1, 1); (2, 1)];
            [(1, 0); (2, 0); (1, 1); (1, 2)];
            [(0, 1); (1, 1); (2, 1); (2, 2)];
            [(1, 0); (1, 1); (0, 2); (1, 2)] ]
  | KL => [ [(2, 0); (0, 1); (1, 1); (2, 1)];
            [(1, 0); (1, 1); (1, 2); (2, 2)];
            [(0, 1); (1, 1); (2, 1); (0, 2)];
            [(0, 0); (1, 0); (1, 1); (1, 2)] ]
  | KO => [ [(1, 0); (2, 0); (1, 1); (2, 1)] ]
  | KS => [ [(1, 0); (2, 0); (0, 1); (1, 1)]; [(1, 0); (1, 1); (2, 1); (2, 2)] ]
  | KT => [ [(1, 0); (0, 1); (1, 1); (2, 1)];
            [(1, 0); (1, 1); (2, 1); (1, 2)];
            [(0, 1); (1, 1); (2, 1); (1, 2)];
            [(1, 0); (0, 1); (1, 1); (1, 2)] ]
  | KZ => [ [(0, 0); (1, 0); (1, 1); (2, 1)]; [(2, 0); (1, 1); (2, 1); (1, 2)] ]
  end.

Definition COLORS (k : Kind) : string :=
  match k with
  | KI => "#53d1f5"
  | KJ => "#5a79ff"
  | KL => "#ff9f40"
  | KO => "#ffd93b"
  | KS => "#7dd36a"
  | KT => "#ba6bff"
  | KZ => "#ff6b6b"
  end.

(** ** class Piece *)

Module Piece.

Record t : Type := mk { kind : Kind; rot : Z; x : Z; y : Z }.

(** [Piece(kind)] *)
Definition new (k : Kind) : t := mk k 0 3 0.

Definition blocks (p : t) : result (list (Z * Z)) :=
  Py.getitem (SHAPES (kind p)) (rot p).

Definition rotated (p : t) : t :=
  mk (kind p) ((rot p + 1) `mod` Z.of_nat (length (SHAPES (kind p)))) (x p) (y p).

Definition moved (p : t) (dx dy : Z) : t :=
  mk (kind p) (rot p) (x p + dx) (y p + dy).

End Piece.

(** ** The board and the stored games *)

Abbreviation Cell := (option string) (only parsing).
Abbreviation Board := (list (list Cell)) (only parsing).

(** Python truth value of a cell: [None] and the empty string are false. *)
Definition truthy (c : Cell) : bool :=
  match c with
  | None => false
  | Some s => negb (String.eqb s "")
  end.

(** One row of the [Game] table. *)
Record Game : Type := mkGame {
  g_name : string;
  g_score : Z;
  g_lines : Z;
  g_level : Z
}.

(** ** class Tetris *)

Module Tetris.

Record t : Type := mk {
  board : Board;
  cur : Piece.t;
  next : Piece.t;
  score : Z;
  lines : Z;
  level : Z;
  delay : Z;
  paused : bool;
  game_over : bool;
  player_name : option string;
  games : list Game
}.

Definition with_board (s : t) (b : Board) : t :=
  mk b (cur s) (next s) (score s) (lines s) (level s) (delay s)
     (paused s) (game_over s) (player_name s) (games s).
Definition with_cur (s : t) (p : Piece.t) : t :=
  mk (board s) p (next s) (score s) (lines s) (level s) (delay s)
     (paused s) (game_over s) (player_name s) (games s).
Definition with_next (s : t) (p : Piece.t) : t :=
  mk (board s) (cur s) p (score s) (lines s) (level s) (delay s)
     (paused s) (game_over s) (player_name s) (games s).
Definition with_score (s : t) (v : Z) : t :=
  mk (board s) (cur s) (next s) v (lines s) (level s) (delay s)
     (paused s) (game_over s) (player_name s) (games s).
Definition with_lines (s : t) (v : Z) : t :=
  mk (board s) (cur s) (next s) (score s) v (level s) (delay s)
     (paused s) (game_over s) (player_name s) (games s).
Definition with_level (s : t) (v : Z) : t :=
  mk (board s) (cur s) (next s) (score s) (lines s) v (delay s)
     (paused s) (game_over s) (player_name s) (games s).
Definition with_delay (s : t) (v : Z) : t :=
  mk (board s) (cur s) (next s) (score s) (lines s) (level s) v
     (paused s) (game_over s) (player_name s) (games s).
Definition with_paused (s : t) (v : bool) : t :=
  mk (board s) (cur s) (next s) (score s) (lines s) (level s) (delay s)
     v (game_over s) (player_name s) (games s).
Definition with_game_over (s : t) (v : bool) : t :=
  mk (board s) (cur s) (next s) (score s) (lines s) (level s) (delay s)
     (paused s) v (player_name s) (games s).
Definition with_player_name (s : t) (v : option string) : t :=
  mk (board s) (cur s) (next s) (score s) (lines s) (level s) (delay s)
     (paused s) (game_over s) v (games s).
Definition with_games (s : t) (v : list Game) : t :=
  mk (board s) (cur s) (next s) (score s) (lines s) (level s) (delay s)
     (paused s) (game_over s) (player_name s) v.

Definition empty_row : list Cell := replicate (Z.to_nat COLS) None.
Definition empty_board : Board := replicate (Z.to_nat ROWS) empty_row.

(** [new_piece]: [k] is the kind [random.choice] returns. *)
Definition new_piece (k : Kind) : Piece.t := Piece.new k.

(** [reset]: [k1] and [k2] are the two kinds drawn. *)
Definition reset (k1 k2 : Kind) (s : t) : t :=
  mk empty_board (new_piece k1) (new_piece k2) 0 0 1 START_DELAY
     false false (player_name s) (games s).

(** [__init__] up to its [reset]: no player yet; [stored] is the [Game]
    table as the program finds it. *)
Definition init (k1 k2 : Kind) (stored : list Game) : t :=
  mk empty_board (new_piece k1) (new_piece k2) 0 0 1 START_DELAY
     false false None stored.

Definition toggle_pause (s : t) : t :=
  if game_over s then s else with_paused s (negb (paused s)).

Definition restart (k1 k2 : Kind) (s : t) : t := reset k1 k2 s.

(** The loop of [valid] over the blocks that remain. *)
Fixpoint valid_loop (b : Board) (piece : Piece.t) (bs : list (Z * Z)) : result bool :=
  match bs with
  | [] => Ok true
  | (bx, by_) :: rest =>
      let x := Piece.x piece + bx in
      let y := Piece.y piece + by_ in
      if (x <? 0) || (x >=? COLS) || (y <? 0) || (y >=? ROWS) then Ok false
      else
        row ← Py.getitem b y;
        c ← Py.getitem row x;
        if truthy c then Ok false else valid_loop b piece rest
  end.

Definition valid (s : t) (piece : Piece.t) : result bool :=
  bs ← Piece.blocks piece; valid_loop (board s) piece bs.

(** [persist_game]: a row is added only when a player name is set. *)
Definition name_set (n : option string) : bool :=
  match n with
  | None => false
  | Some v => negb (String.eqb v "")
  end.

Definition persist_game (s : t) : t :=
  match player_name s with
  | Some v =>
      if negb (String.eqb v "")
      then with_games s (games s ++ [mkGame v (score s) (lines s) (level s)])
      else s
  | None => s
  end.

(** The comprehension of [clear_lines]: [all(board[i][c] for c in range(COLS))]
    stops at the first false cell. *)
Fixpoint all_cols (row : list Cell) (cs : list Z) : result bool :=
  match cs with
  | [] => Ok true
  | c :: rest =>
      v ← Py.getitem row c;
      if truthy v then all_cols row rest else Ok false
  end.

Fixpoint full_rows (b : Board) (rows : list Z) : result (list Z) :=
  match rows with
  | [] => Ok []
  | i :: rest =>
      row ← Py.getitem b i;
      f ← all_cols row (Py.range COLS);
      more ← full_rows b rest;
      Ok (if (f : bool) then i :: more else more)
  end.

(** [for i in reversed(full): del board[i]; board.insert(0, [None]*COLS)],
    given the indices already reversed. *)
Fixpoint remove_rows (b : Board) (rfull : list Z) : result Board :=
  match rfull with
  | [] => Ok b
  | i :: rest =>
      b1 ← Py.delitem b i;
      remove_rows (empty_row :: b1) rest
  end.

(** [scores.get(n, 0)] *)
Definition scores_get (n : Z) : Z :=
  if n =? 1 then 100
  else if n =? 2 then 300
  else if n =? 3 then 500
  else if n =? 4 then 800
  else 0.

Definition clear_lines (s : t) : result t :=
  full ← full_rows (board s) (Py.range ROWS);
  let n := Z.of_nat (length full) in
  if n =? 0 then Ok s
  else
    b ← remove_rows (board s) (reverse full);
    let s := with_board s b in
    let s := with_score s (score s + scores_get n * level s) in
    let s := with_lines s (lines s + n) in
    if lines s `div` LINES_PER_LEVEL + 1 >? level s then
      let s := with_level s (level s + 1) in
      Ok (with_delay s (Z.max 80 (START_DELAY - LEVEL_STEP * (level s - 1))))
    else Ok s.

(** The loop of [lock] over the blocks that remain; the flag tells whether
    the loop left through the [y < 0] branch. *)
Fixpoint lock_loop (color : string) (piece : Piece.t) (bs : list (Z * Z)) (b : Board)
  : result (Board * bool) :=
  match bs with
  | [] => Ok (b, false)
  | (bx, by_) :: rest =>
      let x := Piece.x piece + bx in
      let y := Piece.y piece + by_ in
      if y <? 0 then Ok (b, true)
      else
        (* board[y][x] = color: the row is changed in place *)
        row ← Py.getitem b y;
        row' ← Py.setitem row x (Some color);
        b' ← Py.setitem b y row';
        lock_loop color piece rest b'
  end.

Definition lock (nk : Kind) (s : t) : result t :=
  let color := COLORS (Piece.kind (cur s)) in
  bs ← Piece.blocks (cur s);
  '(b, overflow) ← lock_loop color (cur s) bs (board s);
  let s := with_board s b in
  if (overflow : bool) then Ok (persist_game (with_game_over s true))
  else
    s ← clear_lines s;
    let s := with_cur s (next s) in
    let s := with_next s (new_piece nk) in
    v ← valid s (cur s);
    if negb (v : bool) then Ok (persist_game (with_game_over s true)) else Ok s.

Definition move (dx dy : Z) (nk : Kind) (s : t) : result t :=
  if paused s || game_over s then Ok s
  else
    let p := Piece.moved (cur s) dx dy in
    v ← valid s p;
    if (v : bool) then Ok (with_cur s p)
    else if dy =? 1 then lock nk s
    else Ok s.

Definition soft_drop (nk : Kind) (s : t) : result t :=
  if paused s || game_over s then Ok s
  else
    s ← move 0 1 nk s;
    Ok (with_score s (score s + 1)).

(** The [while True] loop of [hard_drop]; [fuel] bounds the iterations. *)
Fixpoint drop_loop (fuel : nat) (s : t) (p : Piece.t) (dist : Z)
  : result (Piece.t * Z) :=
  match fuel with
  | O => OutOfFuel
  | S fuel =>
      let q := Piece.moved p 0 1 in
      v ← valid s q;
      if (v : bool) then drop_loop fuel s q (dist + 1) else Ok (p, dist)
  end.

(** Rows left below the origin of [p], plus the last, failing test: the
    loop never needs more iterations (see [drop_loop_fuel]). *)
Definition drop_fuel (p : Piece.t) : nat := S (Z.to_nat (ROWS - Piece.y p)).

Definition hard_drop (nk : Kind) (s : t) : result t :=
  if paused s || game_over s then Ok s
  else
    '(p, dist) ← drop_loop (drop_fuel (cur s)) s (cur s) 0;
    let s := with_cur s p in
    s ← lock nk s;
    Ok (with_score s (score s + dist * 2)).

(** The loop of [rotate] over the kicks that remain. *)
Fixpoint rotate_loop (s : t) (p : Piece.t) (ks : list Z) : result t :=
  match ks with
  | [] => Ok s
  | k :: rest =>
      let c := Piece.moved p k 0 in
      v ← valid s c;
      if (v : bool) then Ok (with_cur s c) else rotate_loop s p rest
  end.

Definition kicks : list Z := [0; -1; 1; -2; 2].

Definition rotate (s : t) : result t :=
  if paused s || game_over s then Ok s
  else rotate_loop s (Piece.rotated (cur s)) kicks.

Definition tick (nk : Kind) (s : t) : result t :=
  if negb (paused s) && negb (game_over s) then move 0 1 nk s else Ok s.

(** [login_and_start] and [change_player] with the name the dialog gave;
    without a name the state stays as it is. *)
Definition change_player (name : option string) (s : t) : t :=
  if name_set name then with_player_name s name else s.

End Tetris.

Import Tetris.

(** ** Commands and reachable states *)

(** The events the window delivers: the key bindings of [bind_keys], the
    timer of [tick] and the player dialogs.  [Move] is [move(dx, dy)] for
    any step, which covers the two bound keys. *)
Inductive Command : Type :=
  | Move (dx dy : Z)
  | SoftDrop
  | HardDrop
  | Rotate
  | TogglePause
  | Restart (k1 k2 : Kind)
  | Tick
  | ChangePlayer (name : option string).

(** One event; [nk] is the kind the next [new_piece] draws. *)
Definition step (c : Command) (nk : Kind) (s : Tetris.t) : result Tetris.t :=
  match c with
  | Move dx dy => move dx dy nk s
  | SoftDrop => soft_drop nk s
  | HardDrop => hard_drop nk s
  | Rotate => rotate s
  | TogglePause => Ok (toggle_pause s)
  | Restart k1 k2 => Ok (restart k1 k2 s)
  | Tick => tick nk s
  | ChangePlayer name => Ok (change_player name s)
  end.

Definition is_restart (c : Command) : bool :=
  match c with
  | Restart _ _ => true
  | _ => false
  end.

(** A run of events, each with its draw. *)
Fixpoint run (cs : list (Command * Kind)) (s : Tetris.t) : result Tetris.t :=
  match cs with
  | [] => Ok s
  | (c, nk) :: rest => s' ← step c nk s; run rest s'
  end.

Inductive reachable : Tetris.t → Prop :=
  | reach_init k1 k2 stored : reachable (init k1 k2 stored)
  | reach_step s c nk s' :
      reachable s → step c nk s = Ok s' → reachable s'.

(** ** Predicates of the statements *)

(** A board of [ROWS] rows of [COLS] cells. *)
Definition wf_board (b : Board) : Prop :=
  length b = Z.to_nat ROWS ∧ Forall (λ row, length row = Z.to_nat COLS) b.

(** The rotation index selects a state of the kind. *)
Definition wf_piece (p : Piece.t) : Prop :=
  0 ≤ Piece.rot p < Z.of_nat (length (SHAPES (Piece.kind p))).

(** The cell at column [x] of row [y], both inside the board, is taken. *)
Definition occupied (b : Board) (x y : Z) : bool :=
  match b !! Z.to_nat y with
  | Some row =>
      match row !! Z.to_nat x with
      | Some c => truthy c
      | None => false
      end
  | None => false
  end.

(** The block at offset [blk] of [p] is outside the board or on a taken cell. *)
Definition bad_block (b : Board) (p : Piece.t) (blk : Z * Z) : bool :=
  let x := Piece.x p + blk.1 in
  let y := Piece.y p + blk.2 in
  (x <? 0) || (x >=? COLS) || (y <? 0) || (y >=? ROWS) || occupied b x y.

(** The block at offset [blk] of [p] is inside the board. *)
Definition in_board (p : Piece.t) (blk : Z * Z) : Prop :=
  0 ≤ Piece.x p + blk.1 < COLS ∧ 0 ≤ Piece.y p + blk.2 < ROWS.

(** Some block of [p] lies above the board. *)
Definition above_board (p : Piece.t) (bs : list (Z * Z)) : Prop :=
  ∃ blk, blk ∈ bs ∧ Piece.y p + blk.2 < 0.

(** One unit step down, the move [hard_drop] repeats. *)
Definition down (p : Piece.t) : Piece.t := Piece.moved p 0 1.

(** The commands of the game proper: everything but a restart and the
    player dialog. *)
Definition is_play (c : Command) : bool :=
  match c with
  | Restart _ _ | ChangePlayer _ => false
  | _ => true
  end.

(** The row [persist_game] adds for score [sc]: none without a player. *)
Definition stored_row (s : Tetris.t) (sc : Z) : list Game :=
  match player_name s with
  | Some v => if negb (String.eqb v "") then [mkGame v sc (lines s) (level s)] else []
  | None => []
  end.

(** Every rotation state has four offsets in [0..3], the first of them on
    the topmost row of the state. *)
Definition shape_ok (bs : list (Z * Z)) : bool :=
  match bs with
  | [] => false
  | (bx0, by0) :: _ =>
      (length bs =? 4)%nat &&
      forallb (λ blk, (0 <=? blk.1) && (blk.1 <=? 3) && (by0 <=? blk.2) && (blk.2 <=? 3)) bs
      && (0 <=? by0)
  end.

(** What the state machine keeps true: the board has its size, the current
    piece lies inside it and is valid while the game runs, and the next
    piece is as [new_piece] made it. *)
Record Inv (s : Tetris.t) : Prop := mkInv {
  inv_board : wf_board (board s);
  inv_cur : wf_piece (cur s);
  inv_next : next s = Piece.new (Piece.kind (next s));
  inv_in_board : ∀ bs, Piece.blocks (cur s) = Ok bs →
                 Forall (in_board (cur s)) bs;
  inv_valid : game_over s = false → valid s (cur s) = Ok true
}.

(** ** The specification's wording, where it differs from the code *)

(** The reading of [valid] in which rows above the board are passable: the
    test fails exactly on a column outside the board, a row below it, or a
    taken cell at a row of the board. *)
Definition passable_above (s : Tetris.t) (p : Piece.t) : Prop :=
  ∀ bs, Piece.blocks p = Ok bs →
  (valid s p = Ok false ↔
   ∃ blk, blk ∈ bs ∧
     (Piece.x p + blk.1 < 0 ∨ COLS ≤ Piece.x p + blk.1
      ∨ ROWS ≤ Piece.y p + blk.2
      ∨ (0 ≤ Piece.y p + blk.2
         ∧ occupied (board s) (Piece.x p + blk.1) (Piece.y p + blk.2) = true))).

(** The line clear as the specification words it: every full row goes, the
    other rows keep their order, and as many empty rows come on top. *)
Definition spec_clear_full_rows (b : Board) : Board :=
  let kept := filter (λ row, forallb truthy row = false) b in
  replicate (length b - length kept) empty_row ++ kept.

(** ** Sample states *)

(** A row with every column taken but column [x]. *)
Definition row_but (x : nat) : list Cell :=
  <[x := None]> (replicate (Z.to_nat COLS) (Some (COLORS KO))).

(** A vertical I piece against the left wall of the empty board. *)
Definition left_wall_state : Tetris.t :=
  with_cur (init KI KO []) (Piece.mk KI 1 (-2) 5).

(** Four rows at the bottom wait for a vertical I piece in column 5, at
    level 3 with 25 lines and 1000 points. *)
Definition four_rows_state : Tetris.t :=
  Tetris.mk (replicate 16 empty_row ++ replicate 4 (row_but 5))
            (Piece.mk KI 1 3 16) (Piece.new KO)
            1000 25 3 420 false false (Some "ann") [].

(** The same board with the I piece still at the top, in column 5. *)
Definition four_rows_drop : Tetris.t :=
  with_cur four_rows_state (Piece.mk KI 1 3 0).

(** One full row at the bottom, nine lines so far, level 1. *)
Definition ninth_line_state : Tetris.t :=
  Tetris.mk (replicate 19 empty_row ++ [replicate 10 (Some (COLORS KO))])
            (Piece.new KT) (Piece.new KO)
            900 9 1 500 false false (Some "ann") [].

(** Rows 18 and 19 lack columns 4 and 5 only, row 17 has column 0 taken,
    and the O piece rests in the gap. *)
Definition two_rows_state : Tetris.t :=
  Tetris.mk (replicate 17 empty_row
             ++ [Some (COLORS KT) :: replicate 9 None;
                 <[4%nat := None]> (row_but 5); <[4%nat := None]> (row_but 5)])
            (Piece.mk KO 0 3 18) (Piece.new KI)
            0 0 1 500 false false (Some "ann") [].

(** A well twelve rows deep in column 5, and the vertical I piece above it. *)
Definition well_state : Tetris.t :=
  Tetris.mk (replicate 8 empty_row ++ replicate 12 (row_but 5))
            (Piece.mk KI 1 3 0) (Piece.new KI)
            0 0 1 500 false false (Some "ann") [].

(** A game of player ann from a start with an I piece: ten hard drops, all
    in the columns the pieces spawn in, every drawn piece an O. *)
Definition ten_drops : list (Command * Kind) :=
  (ChangePlayer (Some "ann"), KO) :: replicate 10 (HardDrop, KO).

(** A game of O pieces: nine hard drops, then a soft drop of the tenth
    piece, which rests on the stack where it spawned. *)
Definition nine_drops_soft : list (Command * Kind) :=
  (ChangePlayer (Some "ann"), KO) :: replicate 9 (HardDrop, KO) ++ [(SoftDrop, KO)].

(** ** More of class Tetris: the ghost piece and the canvas *)

Definition CELL : Z := 30.
Definition W : Z := COLS * CELL.
Definition H : Z := ROWS * CELL.

(** The [while] loop of [ghost_piece]; [fuel] bounds the iterations. *)
Fixpoint ghost_loop (fuel : nat) (s : Tetris.t) (p : Piece.t) : result Piece.t :=
  match fuel with
  | O => OutOfFuel
  | S fuel =>
      v ← valid s (Piece.moved p 0 1);
      if (v : bool) then ghost_loop fuel s (Piece.moved p 0 1) else Ok p
  end.

Definition ghost_piece (s : Tetris.t) : result Piece.t :=
  let p := Piece.mk (Piece.kind (cur s)) (Piece.rot (cur s))
                    (Piece.x (cur s)) (Piece.y (cur s)) in
  ghost_loop (drop_fuel p) s p.

(** [canvas.create_rectangle(x0, y0, x1, y1, fill=..., outline=..., width=...)]:
    the canvas is the list of the rectangles created, the newest last. *)
Record Rect : Type := mkRect {
  r_x0 : Z; r_y0 : Z; r_x1 : Z; r_y1 : Z;
  r_fill : option string;
  r_outline : string;
  r_width : option Z
}.

Definition draw_cell (x y : Z) (color : string) : list Rect :=
  let x0 := x * CELL in
  let y0 := y * CELL in
  let x1 := x0 + CELL in
  let y1 := y0 + CELL in
  [ mkRect x0 y0 x1 y1 (Some color) "#222" (Some 1);
    mkRect (x0 + 3) (y0 + 3) (x1 - 3) (y1 - 3) None "#000" (Some 1) ].

(** The loop of [draw_piece] over the blocks that remain. *)
Fixpoint draw_piece_loop (piece : Piece.t) (color : string) (bs : list (Z * Z))
  : list Rect :=
  match bs with
  | [] => []
  | (bx, by_) :: rest =>
      let x := Piece.x piece + bx in
      let y := Piece.y piece + by_ in
      (if (0 <=? x) && (x <? COLS) && (0 <=? y) && (y <? ROWS)
       then draw_cell x y color else [])
      ++ draw_piece_loop piece color rest
  end.

Definition draw_piece (piece : Piece.t) (color : string) : result (list Rect) :=
  bs ← Piece.blocks piece; Ok (draw_piece_loop piece color bs).

(** [COLORS["G"]], the colour of the ghost outline. *)
Definition GHOST_COLOR : string := "#445".

Fixpoint draw_ghost_loop (gho : Piece.t) (bs : list (Z * Z)) : list Rect :=
  match bs with
  | [] => []
  | (bx, by_) :: rest =>
      let x := Piece.x gho + bx in
      let y := Piece.y gho + by_ in
      (if (0 <=? x) && (x <? COLS) && (0 <=? y) && (y <? ROWS)
       then
         let x0 := x * CELL in
         let y0 := y * CELL in
         let x1 := x0 + CELL in
         let y1 := y0 + CELL in
         [mkRect (x0 + 4) (y0 + 4) (x1 - 4) (y1 - 4) None GHOST_COLOR None]
       else [])
      ++ draw_ghost_loop gho rest
  end.

Definition draw_ghost (s : Tetris.t) : result (list Rect) :=
  gho ← ghost_piece s;
  bs ← Piece.blocks gho;
  Ok (draw_ghost_loop gho bs).

(** The inner loop of [draw_grid] over the columns of row [r] that remain. *)
Fixpoint draw_grid_row (b : Board) (r : Z) (cs : list Z) : result (list Rect) :=
  match cs with
  | [] => Ok []
  | c :: rest =>
      let base := if (r + c) `mod` 2 =? 0 then "#0e0e13" else "#101019" in
      row ← Py.getitem b r;
      v ← Py.getitem row c;
      more ← draw_grid_row b r rest;
      Ok ((match v with
           | Some color =>
               if truthy v then draw_cell c r color
               else [mkRect (c * CELL) (r * CELL) (c * CELL + CELL) (r * CELL + CELL)
                            (Some base) "#1b1b22" None]
           | None =>
               [mkRect (c * CELL) (r * CELL) (c * CELL + CELL) (r * CELL + CELL)
                       (Some base) "#1b1b22" None]
           end) ++ more)
  end.

Fixpoint draw_grid_rows (b : Board) (rs : list Z) : result (list Rect) :=
  match rs with
  | [] => Ok []
  | r :: rest =>
      here ← draw_grid_row b r (Py.range COLS);
      more ← draw_grid_rows b rest;
      Ok (here ++ more)
  end.

Definition draw_grid (s : Tetris.t) : result (list Rect) :=
  draw_grid_rows (board s) (Py.range ROWS).

(** A rectangle inside the canvas of [W] by [H] pixels. *)
Definition in_canvas (r : Rect) : Prop :=
  0 ≤ r_x0 r ∧ r_x0 r ≤ r_x1 r ∧ r_x1 r ≤ W
  ∧ 0 ≤ r_y0 r ∧ r_y0 r ≤ r_y1 r ∧ r_y1 r ≤ H.

(** ** More predicates *)

(** The counters as a game keeps them: nothing negative, a level of at
    least 1, and the delay that belongs to the level. *)
Definition counters_ok (s : Tetris.t) : Prop :=
  0 ≤ score s ∧ 0 ≤ lines s ∧ 1 ≤ level s
  ∧ delay s = Z.max 80 (START_DELAY - LEVEL_STEP * (level s - 1)).

(** Every cell is empty or holds the colour of one of the seven kinds. *)
Definition colored (b : Board) : Prop :=
  Forall (Forall (λ c : Cell, c = None ∨ ∃ k, c = Some (COLORS k))) b.

(** The cell at index [j] of row [i], when the board has one. *)
Definition cell_at (b : Board) (i j : nat) : option Cell :=
  row ← b !! i; row !! j.

(** The commands a paused game ignores: those of the game proper but the
    pause key. *)
Definition ignored_when_paused (c : Command) : bool :=
  match c with
  | Move _ _ | SoftDrop | HardDrop | Rotate | Tick => true
  | _ => false
  end.

(** ** Players *)

(** The [users] collection is the list of its documents, the oldest first;
    a document is a dictionary from field names to strings.  [sha256_hex]
    stands for [hashlib.sha256(s.encode("utf-8")).hexdigest()]; the salt of
    [secrets.token_hex] and the time of [datetime.utcnow().isoformat()] are
    arguments. *)
Definition _hash_pw (sha256_hex : string → string) (password salt : string) : string :=
  sha256_hex (salt +:+ password).

(** [users.where("name").eq(name).first()] *)
Definition find_user (name : string) (users : list (gmap string string))
  : option (gmap string string) :=
  head (filter (λ rec, rec !! "name" = Some name) users).

(** [create_user]: the collection after [users.add], or the message of the
    [ValueError]. *)
Definition create_user (sha256_hex : string → string) (name password salt now : string)
    (users : list (gmap string string)) : string + list (gmap string string) :=
  if String.eqb password "" then inl "Password required"
  else inr (users ++ [ {[ "name" := name;
                          "salt" := salt;
                          "hash" := _hash_pw sha256_hex password salt;
                          "created" := now +:+ "Z" ]} ]).

Definition verify_user (sha256_hex : string → string) (name password : string)
    (users : list (gmap string string)) : bool :=
  match find_user name users with
  | None => false
  | Some rec =>
      if decide (rec = ∅) then false
      else
        let expect := rec !! "hash" in
        let salt := default "" (rec !! "salt") in
        bool_decide (Some (_hash_pw sha256_hex password salt) = expect)
  end.

(** * Proofs *)

(** Closed goals about the sample states. *)
Ltac in_board_all :=
  repeat (constructor; [unfold in_board, COLS, ROWS; simpl; lia|]); constructor.

Ltac wf_board_all :=
  split; [reflexivity|repeat (constructor; [reflexivity|]); constructor].

(** ** The result monad and indexing *)

Lemma bind_Ok {A B} (m : result A) (f : A → result B) (b : B) :
  m ≫= f = Ok b ↔ ∃ a, m = Ok a ∧ f a = Ok b.
Proof.
  destruct m as [a| |]; simpl; split.
  - intros H. exists a. auto.
  - intros (a' & Ha & Hf). injection Ha as ->. exact Hf.
  - discriminate.
  - intros (a' & Ha & _). discriminate.
  - discriminate.
  - intros (a' & Ha & _). discriminate.
Qed.

Lemma index_in_range (n : nat) (i : Z) :
  0 ≤ i < Z.of_nat n → Py.index n i = Ok (Z.to_nat i).
Proof.
  intros Hi. unfold Py.index.
  destruct (Z.leb_spec 0 i); [|lia].
  destruct (Z.ltb_spec i (Z.of_nat n)); [reflexivity|lia].
Qed.

Lemma getitem_in_range {A} (l : list A) (i : Z) :
  0 ≤ i < Z.of_nat (length l) →
  ∃ a, l !! Z.to_nat i = Some a ∧ Py.getitem l i = Ok a.
Proof.
  intros Hi. unfold Py.getitem. rewrite index_in_range by exact Hi. simpl.
  destruct (lookup_lt_is_Some_2 l (Z.to_nat i)) as [a Ha]; [lia|].
  exists a. rewrite Ha. auto.
Qed.

Lemma getitem_lookup {A} (l : list A) (i : Z) (a : A) :
  0 ≤ i → l !! Z.to_nat i = Some a → Py.getitem l i = Ok a.
Proof.
  intros Hi Ha. pose proof (lookup_lt_Some _ _ _ Ha) as Hlt.
  unfold Py.getitem. rewrite index_in_range by lia. simpl. rewrite Ha. reflexivity.
Qed.

Lemma setitem_in_range {A} (l : list A) (i : Z) (v : A) :
  0 ≤ i < Z.of_nat (length l) → Py.setitem l i v = Ok (<[Z.to_nat i := v]> l).
Proof. intros Hi. unfold Py.setitem. rewrite index_in_range by exact Hi. reflexivity. Qed.

Lemma delitem_in_range {A} (l : list A) (i : Z) :
  0 ≤ i < Z.of_nat (length l) → Py.delitem l i = Ok (delete (Z.to_nat i) l).
Proof. intros Hi. unfold Py.delitem. rewrite index_in_range by exact Hi. reflexivity. Qed.

Lemma elem_of_range (n i : Z) : i ∈ Py.range n ↔ 0 ≤ i < n.
Proof.
  unfold Py.range. rewrite list_elem_of_fmap. split.
  - intros (k & -> & Hk). apply elem_of_seq in Hk. lia.
  - intros Hi. exists (Z.to_nat i). split; [lia|]. apply elem_of_seq. lia.
Qed.

(** ** The shape table *)

Lemma SHAPES_ok (k : Kind) : forallb shape_ok (SHAPES k) = true.
Proof. destruct k; reflexivity. Qed.

Lemma blocks_shape (p : Piece.t) (bs : list (Z * Z)) :
  Piece.blocks p = Ok bs → shape_ok bs = true.
Proof.
  unfold Piece.blocks, Py.getitem. intros H.
  apply bind_Ok in H as (k & _ & H).
  destruct (SHAPES (Piece.kind p) !! k) as [a|] eqn:Hk; [|discriminate].
  injection H as <-.
  pose proof (SHAPES_ok (Piece.kind p)) as Hall.
  rewrite forallb_forall in Hall. apply Hall.
  apply list_elem_of_In. eapply list_elem_of_lookup_2. exact Hk.
Qed.

Lemma shape_ok_offsets (bs : list (Z * Z)) (blk : Z * Z) :
  shape_ok bs = true → blk ∈ bs → 0 ≤ blk.1 ≤ 3 ∧ 0 ≤ blk.2 ≤ 3.
Proof.
  destruct bs as [|[bx0 by0] rest]; [discriminate|].
  unfold shape_ok. rewrite !andb_true_iff, forallb_forall.
  intros [[_ Hall] H0] Hin. apply list_elem_of_In in Hin.
  specialize (Hall _ Hin). rewrite !andb_true_iff in Hall. lia.
Qed.

Lemma shape_ok_first (bs : list (Z * Z)) (blk : Z * Z) :
  shape_ok bs = true → blk ∈ bs →
  ∃ b0 rest, bs = b0 :: rest ∧ 0 ≤ b0.2 ≤ blk.2.
Proof.
  destruct bs as [|[bx0 by0] rest]; [discriminate|].
  unfold shape_ok. rewrite !andb_true_iff, forallb_forall.
  intros [[_ Hall] H0] Hin. apply list_elem_of_In in Hin.
  specialize (Hall _ Hin). rewrite !andb_true_iff in Hall.
  exists (bx0, by0), rest. simpl. split; [reflexivity|lia].
Qed.

Lemma blocks_wf (p : Piece.t) :
  wf_piece p → ∃ bs, Piece.blocks p = Ok bs.
Proof.
  intros Hp. unfold Piece.blocks.
  destruct (getitem_in_range (SHAPES (Piece.kind p)) (Piece.rot p) Hp) as (a & _ & Ha).
  eauto.
Qed.

Lemma SHAPES_nonempty (k : Kind) : (0 < length (SHAPES k))%nat.
Proof. destruct k; simpl; lia. Qed.

Lemma rotated_wf (p : Piece.t) : wf_piece (Piece.rotated p).
Proof.
  unfold wf_piece, Piece.rotated. simpl.
  apply Z.mod_pos_bound. pose proof (SHAPES_nonempty (Piece.kind p)). lia.
Qed.

Lemma moved_wf (p : Piece.t) (dx dy : Z) : wf_piece p → wf_piece (Piece.moved p dx dy).
Proof. unfold wf_piece, Piece.moved. simpl. auto. Qed.

Lemma new_wf (k : Kind) : wf_piece (Piece.new k).
Proof. unfold wf_piece, Piece.new. simpl. pose proof (SHAPES_nonempty k). lia. Qed.

(** ** [valid] *)

Lemma wf_board_row (b : Board) (y : Z) :
  wf_board b → 0 ≤ y < ROWS →
  ∃ row, b !! Z.to_nat y = Some row ∧ Py.getitem b y = Ok row
         ∧ length row = Z.to_nat COLS.
Proof.
  intros [Hlen Hrows] Hy.
  destruct (getitem_in_range b y) as (row & Hl & Hg); [lia|].
  exists row. repeat split; try assumption.
  rewrite Forall_forall in Hrows. apply Hrows.
  eapply list_elem_of_lookup_2. exact Hl.
Qed.

Lemma valid_loop_wf (b : Board) (p : Piece.t) (bs : list (Z * Z)) :
  wf_board b → valid_loop b p bs = Ok (negb (existsb (bad_block b p) bs)).
Proof.
  intros Hb. induction bs as [|[bx by_] rest IH]; [reflexivity|].
  cbn [valid_loop existsb]. unfold bad_block at 1. cbn [fst snd].
  destruct ((Piece.x p + bx <? 0) || (Piece.x p + bx >=? COLS)
            || (Piece.y p + by_ <? 0) || (Piece.y p + by_ >=? ROWS)) eqn:Hout;
    [reflexivity|].
  rewrite !orb_false_iff in Hout. destruct Hout as [[[Hx0 Hx1] Hy0] Hy1].
  apply Z.ltb_ge in Hx0, Hy0.
  rewrite Z.geb_leb in Hx1, Hy1. apply Z.leb_gt in Hx1, Hy1.
  destruct (wf_board_row b (Piece.y p + by_) Hb) as (row & Hl & Hg & Hlen); [lia|].
  rewrite Hg. simpl.
  destruct (getitem_in_range row (Piece.x p + bx)) as (c & Hc & Hgc); [lia|].
  rewrite Hgc. simpl. unfold occupied. rewrite Hl, Hc.
  destruct (truthy c); [reflexivity|]. exact IH.
Qed.

Lemma valid_wf (s : Tetris.t) (p : Piece.t) (bs : list (Z * Z)) :
  wf_board (board s) → Piece.blocks p = Ok bs →
  valid s p = Ok (negb (existsb (bad_block (board s) p) bs)).
Proof.
  intros Hb Hbs. unfold valid. rewrite Hbs. simpl. apply valid_loop_wf, Hb.
Qed.

Lemma bad_block_false (b : Board) (p : Piece.t) (blk : Z * Z) :
  bad_block b p blk = false ↔
  in_board p blk ∧ occupied b (Piece.x p + blk.1) (Piece.y p + blk.2) = false.
Proof.
  unfold bad_block, in_board. rewrite !orb_false_iff, !Z.ltb_ge, !Z.geb_leb, !Z.leb_gt.
  tauto.
Qed.

Lemma existsb_false {A} (f : A → bool) (l : list A) :
  existsb f l = false ↔ ∀ a, a ∈ l → f a = false.
Proof.
  split.
  - intros H a Ha. destruct (f a) eqn:Hf; [|reflexivity].
    rewrite <- H. symmetry. apply existsb_exists. exists a.
    split; [apply list_elem_of_In, Ha|exact Hf].
  - intros H. destruct (existsb f l) eqn:He; [|reflexivity].
    apply existsb_exists in He as (a & Ha & Hf).
    rewrite H in Hf; [discriminate|]. apply list_elem_of_In, Ha.
Qed.

Lemma valid_true_blocks (s : Tetris.t) (p : Piece.t) (bs : list (Z * Z)) :
  wf_board (board s) → Piece.blocks p = Ok bs →
  (valid s p = Ok true ↔
   ∀ blk, blk ∈ bs →
     in_board p blk ∧ occupied (board s) (Piece.x p + blk.1) (Piece.y p + blk.2) = false).
Proof.
  intros Hb Hbs. rewrite (valid_wf s p bs Hb Hbs). split.
  - intros H blk Hin. apply bad_block_false.
    injection H as H. apply negb_true_iff in H.
    rewrite existsb_false in H. auto.
  - intros H. f_equal. apply negb_true_iff, existsb_false.
    intros blk Hin. apply bad_block_false. auto.
Qed.

(** [valid] looks at the board only. *)
Lemma valid_board (s1 s2 : Tetris.t) (p : Piece.t) :
  board s1 = board s2 → valid s1 p = valid s2 p.
Proof. unfold valid. intros ->. reflexivity. Qed.

(** A placement [valid] accepts has every block inside the board, whatever
    the board is. *)
Lemma valid_loop_in_board (b : Board) (p : Piece.t) (bs : list (Z * Z)) :
  valid_loop b p bs = Ok true → Forall (in_board p) bs.
Proof.
  induction bs as [|[bx by_] rest IH]; intros H; [constructor|].
  cbn [valid_loop] in H.
  destruct ((Piece.x p + bx <? 0) || (Piece.x p + bx >=? COLS)
            || (Piece.y p + by_ <? 0) || (Piece.y p + by_ >=? ROWS)) eqn:Hout;
    [discriminate|].
  rewrite !orb_false_iff in Hout. destruct Hout as [[[Hx0 Hx1] Hy0] Hy1].
  apply Z.ltb_ge in Hx0, Hy0.
  rewrite Z.geb_leb in Hx1, Hy1. apply Z.leb_gt in Hx1, Hy1.
  apply bind_Ok in H as (row & _ & H). apply bind_Ok in H as (c & _ & H).
  destruct (truthy c); [discriminate|].
  constructor; [|auto]. unfold in_board. simpl. lia.
Qed.

Lemma valid_in_board (s : Tetris.t) (p : Piece.t) :
  valid s p = Ok true →
  ∃ bs, Piece.blocks p = Ok bs ∧ Forall (in_board p) bs.
Proof.
  unfold valid. intros H. apply bind_Ok in H as (bs & Hbs & H).
  exists bs. split; [exact Hbs|]. eapply valid_loop_in_board, H.
Qed.

Lemma empty_board_wf : wf_board empty_board.
Proof.
  split; [reflexivity|]. unfold empty_board.
  apply Forall_replicate. reflexivity.
Qed.

(** C1 (as amended): on a board of [ROWS] by [COLS] cells, [valid] returns,
    and it returns false exactly when some block of the piece has its column
    outside [0, COLS), its row below 0, its row at or beyond [ROWS], or lies
    on a taken cell.  A block above the board makes the placement invalid. *)
Theorem valid_false_iff (s : Tetris.t) (p : Piece.t) :
  wf_board (board s) → wf_piece p →
  ∃ bs, Piece.blocks p = Ok bs
    ∧ (valid s p = Ok true ∨ valid s p = Ok false)
    ∧ (valid s p = Ok false ↔
       ∃ blk, blk ∈ bs ∧
         (Piece.x p + blk.1 < 0 ∨ COLS ≤ Piece.x p + blk.1
          ∨ Piece.y p + blk.2 < 0 ∨ ROWS ≤ Piece.y p + blk.2
          ∨ occupied (board s) (Piece.x p + blk.1) (Piece.y p + blk.2) = true)).
Proof.
  intros Hb Hp. destruct (blocks_wf p Hp) as [bs Hbs]. exists bs.
  split; [exact Hbs|]. rewrite (valid_wf s p bs Hb Hbs).
  split; [destruct (existsb _ bs); auto|]. split.
  - intros H. injection H as H. apply negb_false_iff, existsb_exists in H.
    destruct H as (blk & Hin & Hbad). exists blk.
    split; [apply list_elem_of_In, Hin|].
    unfold bad_block in Hbad. rewrite !orb_true_iff in Hbad.
    rewrite !Z.ltb_lt, !Z.geb_leb, !Z.leb_le in Hbad. tauto.
  - intros (blk & Hin & Hbad). f_equal. apply negb_false_iff, existsb_exists.
    exists blk. split; [apply list_elem_of_In, Hin|].
    unfold bad_block. rewrite !orb_true_iff.
    rewrite !Z.ltb_lt, !Z.geb_leb, !Z.leb_le. tauto.
Qed.

Lemma valid_false_iff_witness :
  ∃ bs, Piece.blocks (Piece.mk KI 0 3 (-2)) = Ok bs
    ∧ (valid (init KI KI []) (Piece.mk KI 0 3 (-2)) = Ok true
       ∨ valid (init KI KI []) (Piece.mk KI 0 3 (-2)) = Ok false)
    ∧ (valid (init KI KI []) (Piece.mk KI 0 3 (-2)) = Ok false ↔
       ∃ blk, blk ∈ bs ∧
         (3 + blk.1 < 0 ∨ COLS ≤ 3 + blk.1
          ∨ -2 + blk.2 < 0 ∨ ROWS ≤ -2 + blk.2
          ∨ occupied empty_board (3 + blk.1) (-2 + blk.2) = true)).
Proof.
  apply (valid_false_iff (init KI KI []) (Piece.mk KI 0 3 (-2))).
  - exact empty_board_wf.
  - unfold wf_piece. simpl. lia.
Defined.

(** C1 (as stated) fails: on the empty board the I piece at row -2 has all
    its blocks on row -1, inside the columns and on no taken cell, and
    [valid] rejects it. *)
Lemma passable_above_fails :
  ¬ passable_above (init KI KI []) (Piece.mk KI 0 3 (-2)).
Proof.
  intros H. specialize (H _ eq_refl). destruct H as [H _].
  destruct (H eq_refl) as (blk & Hin & Hcase).
  cbn [Piece.x Piece.y] in Hcase.
  repeat (apply elem_of_cons in Hin as [-> | Hin]);
    try (apply elem_of_nil in Hin; contradiction);
    cbn [fst snd] in Hcase; unfold COLS, ROWS in Hcase; lia.
Qed.

(** ** [clear_lines] *)

Lemma all_cols_total (row : list Cell) (cs : list Z) :
  Forall (λ c, 0 ≤ c < Z.of_nat (length row)) cs →
  ∃ f, all_cols row cs = Ok f.
Proof.
  induction 1 as [|c cs Hc _ IH]; [eexists; reflexivity|].
  cbn [all_cols].
  destruct (getitem_in_range row c Hc) as (v & _ & Hv). rewrite Hv. simpl.
  destruct (truthy v); [exact IH|eexists; reflexivity].
Qed.

Lemma range_Forall (n : Z) : Forall (λ i, 0 ≤ i < n) (Py.range n).
Proof. apply Forall_forall. intros i Hi. apply elem_of_range, Hi. Qed.

Lemma full_rows_total (b : Board) (rows : list Z) :
  wf_board b → Forall (λ i, 0 ≤ i < ROWS) rows →
  ∃ full, full_rows b rows = Ok full ∧ Forall (λ i, 0 ≤ i < ROWS) full.
Proof.
  intros Hb. induction 1 as [|i rows Hi _ IH]; [exists []; split; [reflexivity|constructor]|].
  cbn [full_rows].
  destruct (wf_board_row b i Hb Hi) as (row & _ & Hg & Hlen). rewrite Hg. cbn [mbind result_bind].
  destruct (all_cols_total row (Py.range COLS)) as [f Hf].
  { rewrite Hlen. eapply Forall_impl; [apply range_Forall|]. simpl. intros c Hc. lia. }
  rewrite Hf. cbn [mbind result_bind]. destruct IH as (more & Hmore & Hin).
  rewrite Hmore. cbn [mbind result_bind].
  eexists. split; [reflexivity|]. destruct f; [constructor|]; assumption.
Qed.

Lemma wf_board_delete_insert (b : Board) (k : nat) :
  wf_board b → (k < length b)%nat → wf_board (empty_row :: delete k b).
Proof.
  intros [Hlen Hrows] Hk. split.
  - cbn [length]. rewrite length_delete by (apply lookup_lt_is_Some_2, Hk). lia.
  - constructor; [reflexivity|]. apply Forall_delete, Hrows.
Qed.

Lemma remove_rows_total (b : Board) (rfull : list Z) :
  wf_board b → Forall (λ i, 0 ≤ i < ROWS) rfull →
  ∃ b', remove_rows b rfull = Ok b' ∧ wf_board b'.
Proof.
  intros Hb Hall. revert b Hb.
  induction Hall as [|i rest Hi _ IH]; intros b Hb; [exists b; auto|].
  cbn [remove_rows]. pose proof Hb as [Hlen _].
  rewrite delitem_in_range by lia. simpl.
  apply IH, wf_board_delete_insert; [exact Hb|lia].
Qed.

(** What [clear_lines] does to the counters, on any board of the right size. *)
Lemma clear_lines_spec (s : Tetris.t) :
  wf_board (board s) →
  ∃ full s',
    full_rows (board s) (Py.range ROWS) = Ok full
    ∧ clear_lines s = Ok s'
    ∧ wf_board (board s')
    ∧ cur s' = cur s ∧ next s' = next s
    ∧ score s' = score s + scores_get (Z.of_nat (length full)) * level s
    ∧ lines s' = lines s + Z.of_nat (length full)
    ∧ paused s' = paused s ∧ game_over s' = game_over s
    ∧ player_name s' = player_name s ∧ games s' = games s
    ∧ (full = [] → s' = s)
    ∧ (full ≠ [] →
       if lines s' `div` LINES_PER_LEVEL + 1 >? level s
       then level s' = level s + 1
            ∧ delay s' = Z.max 80 (START_DELAY - LEVEL_STEP * (level s' - 1))
       else level s' = level s ∧ delay s' = delay s).
Proof.
  intros Hb.
  destruct (full_rows_total (board s) (Py.range ROWS) Hb (range_Forall ROWS))
    as (full & Hfull & Hin).
  exists full. unfold clear_lines. rewrite Hfull. simpl.
  destruct (Z.eqb_spec (Z.of_nat (length full)) 0) as [Hz|Hnz].
  - exists s. destruct full; [|simpl in Hz; lia].
    split_and!; try reflexivity; try assumption.
    + change (scores_get (Z.of_nat (length []))) with 0. lia.
    + simpl. lia.
    + intros Hne. contradiction.
  - destruct (remove_rows_total (board s) (reverse full) Hb) as (b' & Hrm & Hb').
    { apply Forall_reverse, Hin. }
    rewrite Hrm. simpl.
    destruct ((lines s + Z.of_nat (length full)) `div` LINES_PER_LEVEL + 1 >? level s) eqn:Hlv.
    + eexists. split; [reflexivity|]. split; [reflexivity|]. simpl.
      rewrite Hlv. split_and!; try reflexivity; try assumption.
      * intros ->. simpl in Hnz. lia.
      * intros _. split; reflexivity.
    + eexists. split; [reflexivity|]. split; [reflexivity|]. simpl.
      rewrite Hlv. split_and!; try reflexivity; try assumption.
      * intros ->. simpl in Hnz. lia.
      * intros _. split; reflexivity.
Qed.

Lemma all_cols_forallb (row : list Cell) (k n : nat) :
  (k + n)%nat = length row →
  all_cols row (Z.of_nat <$> seq k n) = Ok (forallb truthy (drop k row)).
Proof.
  revert k. induction n as [|n IH]; intros k Hlen.
  - rewrite drop_ge by lia. reflexivity.
  - cbn [seq fmap list_fmap all_cols].
    destruct (lookup_lt_is_Some_2 row k) as [v Hv]; [lia|].
    rewrite (getitem_lookup row (Z.of_nat k) v); [|lia|rewrite Nat2Z.id; exact Hv].
    cbn [mbind result_bind]. rewrite (drop_S _ _ _ Hv). cbn [forallb].
    destruct (truthy v); [|reflexivity]. cbn [andb]. apply IH. lia.
Qed.

Lemma all_cols_row (row : list Cell) :
  length row = Z.to_nat COLS → all_cols row (Py.range COLS) = Ok (forallb truthy row).
Proof.
  intros Hlen. unfold Py.range. rewrite (all_cols_forallb row 0 (Z.to_nat COLS)) by lia.
  reflexivity.
Qed.

(** The rows [clear_lines] finds are the rows of the board it starts from
    that have every column taken. *)
Lemma full_rows_elem (b : Board) (rows full : list Z) :
  wf_board b → Forall (λ i, 0 ≤ i < ROWS) rows →
  full_rows b rows = Ok full →
  ∀ i, i ∈ full ↔
       i ∈ rows ∧ ∃ row, b !! Z.to_nat i = Some row ∧ forallb truthy row = true.
Proof.
  intros Hb Hall. revert full.
  induction Hall as [|j rows Hj _ IH]; intros full Hfull i.
  - injection Hfull as <-. split; [intros H|intros [H _]]; apply elem_of_nil in H; contradiction.
  - cbn [full_rows] in Hfull.
    destruct (wf_board_row b j Hb Hj) as (row & Hl & Hg & Hlen).
    rewrite Hg in Hfull. cbn [mbind result_bind] in Hfull.
    rewrite (all_cols_row row Hlen) in Hfull. cbn [mbind result_bind] in Hfull.
    apply bind_Ok in Hfull as (more & Hmore & Hfull). injection Hfull as <-.
    specialize (IH more Hmore i). rewrite elem_of_cons.
    destruct (forallb truthy row) eqn:Hrow.
    + rewrite elem_of_cons, IH. split.
      * intros [-> | [Hin Hex]]; [eauto|auto].
      * intros [[-> | Hin] Hex]; auto.
    + rewrite IH. split.
      * intros [Hin Hex]. auto.
      * intros [[-> | Hin] Hex]; [|auto].
        destruct Hex as (row' & Hl' & Hrow'). congruence.
Qed.

(** A single full row is removed as the specification says: the row is
    deleted, the others keep their order, one empty row comes on top. *)
Lemma clear_lines_single (s : Tetris.t) (i : Z) :
  wf_board (board s) → full_rows (board s) (Py.range ROWS) = Ok [i] →
  ∃ s', clear_lines s = Ok s'
        ∧ board s' = empty_row :: delete (Z.to_nat i) (board s).
Proof.
  intros Hb Hfull.
  assert (Hi : 0 ≤ i < ROWS).
  { destruct (full_rows_elem (board s) (Py.range ROWS) [i] Hb (range_Forall ROWS) Hfull i)
      as [Hin _].
    destruct Hin as [Hin _]; [apply list_elem_of_here|]. apply elem_of_range, Hin. }
  unfold clear_lines. rewrite Hfull. cbn [mbind result_bind length].
  change (Z.of_nat 1 =? 0) with false. cbn [reverse rev_append remove_rows].
  change (reverse [i]) with [i]. cbn [remove_rows].
  destruct Hb as [Hlen _]. rewrite delitem_in_range by lia.
  cbn [mbind result_bind].
  destruct (_ >? _); eexists; split; reflexivity.
Qed.

(** ** [lock] *)

Lemma wf_board_setcell (b : Board) (row : list Cell) (x y : nat) (v : Cell) :
  wf_board b → b !! y = Some row →
  wf_board (<[y := <[x := v]> row]> b).
Proof.
  intros [Hlen Hrows] Hrow. split.
  - rewrite length_insert. exact Hlen.
  - apply Forall_insert; [exact Hrows|]. rewrite length_insert.
    rewrite Forall_forall in Hrows. apply Hrows.
    eapply list_elem_of_lookup_2, Hrow.
Qed.

Lemma lock_loop_in_board (color : string) (p : Piece.t) (bs : list (Z * Z)) (b : Board) :
  wf_board b → Forall (in_board p) bs →
  ∃ b', lock_loop color p bs b = Ok (b', false) ∧ wf_board b'.
Proof.
  intros Hb Hall. revert b Hb.
  induction Hall as [|[bx by_] rest [Hx Hy] _ IH]; intros b Hb; [exists b; auto|].
  cbn [lock_loop]. cbn [fst snd] in Hx, Hy.
  destruct (Z.ltb_spec (Piece.y p + by_) 0); [lia|].
  destruct (wf_board_row b (Piece.y p + by_) Hb Hy) as (row & Hl & Hg & Hlen).
  rewrite Hg. simpl. rewrite setitem_in_range by lia. simpl.
  pose proof Hb as [Hblen _].
  rewrite setitem_in_range by lia. simpl.
  apply IH. eapply wf_board_setcell; eassumption.
Qed.

Lemma lock_loop_above (color : string) (p : Piece.t) (bs : list (Z * Z)) (b : Board) :
  shape_ok bs = true → above_board p bs →
  lock_loop color p bs b = Ok (b, true).
Proof.
  intros Hok (blk & Hin & Hneg).
  destruct (shape_ok_first bs blk Hok Hin) as ([bx0 by0] & rest & -> & Hfirst).
  cbn [lock_loop]. simpl in Hfirst.
  destruct (Z.ltb_spec (Piece.y p + by0) 0); [reflexivity|lia].
Qed.

Lemma with_board_same (s : Tetris.t) : with_board s (board s) = s.
Proof. destruct s; reflexivity. Qed.

(** The state [lock] builds once the lines are cleared: the next piece
    becomes current and a new one is drawn. *)
Lemma lock_spec (nk : Kind) (s : Tetris.t) (bs : list (Z * Z)) :
  wf_board (board s) → wf_piece (next s) →
  Piece.blocks (cur s) = Ok bs → Forall (in_board (cur s)) bs →
  ∃ b s1 v,
    lock_loop (COLORS (Piece.kind (cur s))) (cur s) bs (board s) = Ok (b, false)
    ∧ wf_board b
    ∧ clear_lines (with_board s b) = Ok s1
    ∧ valid s1 (next s) = Ok v
    ∧ lock nk s =
      Ok (let s2 := with_next (with_cur s1 (next s)) (new_piece nk) in
          if v then s2 else persist_game (with_game_over s2 true)).
Proof.
  intros Hb Hn Hbs Hall.
  destruct (lock_loop_in_board (COLORS (Piece.kind (cur s))) (cur s) bs (board s) Hb Hall)
    as (b & Hloop & Hwb).
  destruct (clear_lines_spec (with_board s b) Hwb)
    as (full & s1 & _ & Hclear & Hwb1 & _ & Hnext & _).
  destruct (blocks_wf (next s) Hn) as [nbs Hnbs].
  exists b, s1, (negb (existsb (bad_block (board s1) (next s)) nbs)).
  split; [exact Hloop|]. split; [exact Hwb|]. split; [exact Hclear|].
  split; [apply valid_wf; assumption|].
  unfold lock. rewrite Hbs. cbn [mbind result_bind]. rewrite Hloop.
  cbn [mbind result_bind]. rewrite Hclear. cbn [mbind result_bind].
  simpl in Hnext. rewrite Hnext.
  replace (valid (with_next (with_cur s1 (next s)) (new_piece nk))
                 (cur (with_next (with_cur s1 (next s)) (new_piece nk))))
    with (valid s1 (next s)) by reflexivity.
  rewrite (valid_wf s1 (next s) nbs Hwb1 Hnbs). cbn [mbind result_bind].
  destruct (existsb _ nbs); reflexivity.
Qed.

(** C2: when some block of the current piece is above the board, [lock]
    sets [game_over] and returns at once: the board is not written, no line
    is cleared, the score, the lines and the level stay, and the current and
    next pieces are not replaced. *)
Theorem lock_above_board (nk : Kind) (s : Tetris.t) (bs : list (Z * Z)) :
  Piece.blocks (cur s) = Ok bs → above_board (cur s) bs →
  ∃ s', lock nk s = Ok s'
    ∧ game_over s' = true
    ∧ board s' = board s
    ∧ score s' = score s ∧ lines s' = lines s
    ∧ level s' = level s ∧ delay s' = delay s
    ∧ cur s' = cur s ∧ next s' = next s ∧ paused s' = paused s.
Proof.
  intros Hbs Habove. exists (persist_game (with_game_over s true)). split.
  - unfold lock. rewrite Hbs. cbn [mbind result_bind].
    rewrite (lock_loop_above _ _ _ _ (blocks_shape _ _ Hbs) Habove).
    cbn [mbind result_bind]. rewrite with_board_same. reflexivity.
  - unfold persist_game. simpl.
    destruct (player_name s) as [v|]; [destruct (negb (String.eqb v ""))|];
      repeat split; reflexivity.
Qed.

Lemma lock_above_board_witness :
  ∃ s', lock KO (with_cur (init KI KI []) (Piece.mk KT 1 3 (-1))) = Ok s'
    ∧ game_over s' = true
    ∧ board s' = empty_board
    ∧ score s' = 0 ∧ lines s' = 0
    ∧ level s' = 1 ∧ delay s' = START_DELAY
    ∧ cur s' = Piece.mk KT 1 3 (-1) ∧ next s' = Piece.new KI ∧ paused s' = false.
Proof.
  apply (lock_above_board KO (with_cur (init KI KI []) (Piece.mk KT 1 3 (-1)))
           [(1, 0); (1, 1); (2, 1); (1, 2)]).
  - reflexivity.
  - exists (1, 0). split; [apply list_elem_of_here|]. simpl. lia.
Defined.

(** ** Scoring and levels *)

Lemma persist_game_fields (s : Tetris.t) :
  board (persist_game s) = board s ∧ cur (persist_game s) = cur s
  ∧ next (persist_game s) = next s ∧ score (persist_game s) = score s
  ∧ lines (persist_game s) = lines s ∧ level (persist_game s) = level s
  ∧ delay (persist_game s) = delay s ∧ paused (persist_game s) = paused s
  ∧ game_over (persist_game s) = game_over s
  ∧ player_name (persist_game s) = player_name s.
Proof.
  unfold persist_game.
  destruct (player_name s) as [v|] eqn:Hn; [destruct (negb (String.eqb v ""))|];
    simpl; rewrite ?Hn; repeat split; reflexivity.
Qed.

Lemma scores_get_table :
  scores_get 1 = 100 ∧ scores_get 2 = 300 ∧ scores_get 3 = 500
  ∧ scores_get 4 = 800 ∧ ∀ n, n < 1 ∨ 4 < n → scores_get n = 0.
Proof.
  repeat split; try reflexivity. intros n Hn. unfold scores_get.
  destruct (Z.eqb_spec n 1); [lia|]. destruct (Z.eqb_spec n 2); [lia|].
  destruct (Z.eqb_spec n 3); [lia|]. destruct (Z.eqb_spec n 4); [lia|].
  reflexivity.
Qed.

Lemma lock_score (nk : Kind) (s : Tetris.t) (bs : list (Z * Z)) :
  wf_board (board s) → wf_piece (next s) →
  Piece.blocks (cur s) = Ok bs → Forall (in_board (cur s)) bs →
  ∃ b full s',
    lock_loop (COLORS (Piece.kind (cur s))) (cur s) bs (board s) = Ok (b, false)
    ∧ full_rows b (Py.range ROWS) = Ok full
    ∧ lock nk s = Ok s'
    ∧ score s' = score s + scores_get (Z.of_nat (length full)) * level s
    ∧ lines s' = lines s + Z.of_nat (length full).
Proof.
  intros Hb Hn Hbs Hall.
  destruct (lock_spec nk s bs Hb Hn Hbs Hall) as (b & s1 & v & Hloop & Hwb & Hclear & _ & Hlock).
  destruct (clear_lines_spec (with_board s b) Hwb)
    as (full & s1' & Hfull & Hclear' & _ & _ & _ & Hscore & Hlines & _).
  rewrite Hclear in Hclear'. injection Hclear' as <-.
  exists b, full. eexists. split; [exact Hloop|]. split; [exact Hfull|].
  split; [exact Hlock|]. simpl in Hscore, Hlines. split.
  - destruct v; simpl; [exact Hscore|].
    destruct (persist_game_fields
                (with_game_over (with_next (with_cur s1 (next s)) (new_piece nk)) true))
      as (_ & _ & _ & -> & _). exact Hscore.
  - destruct v; simpl; [exact Hlines|].
    destruct (persist_game_fields
                (with_game_over (with_next (with_cur s1 (next s)) (new_piece nk)) true))
      as (_ & _ & _ & _ & -> & _). exact Hlines.
Qed.

(** C6: a [lock] of a piece that lies inside the board counts the full rows
    [n] of the board it has written, and adds [scores.get(n, 0)] times the
    level it started with; the table is 100, 300, 500, 800 for 1 to 4 rows
    and 0 for every other count. *)
Theorem lock_adds_score (nk : Kind) (s : Tetris.t) (bs : list (Z * Z)) :
  wf_board (board s) → wf_piece (next s) →
  Piece.blocks (cur s) = Ok bs → Forall (in_board (cur s)) bs →
  ∃ b full s',
    lock_loop (COLORS (Piece.kind (cur s))) (cur s) bs (board s) = Ok (b, false)
    ∧ full_rows b (Py.range ROWS) = Ok full
    ∧ lock nk s = Ok s'
    ∧ score s' = score s + scores_get (Z.of_nat (length full)) * level s
    ∧ scores_get 1 = 100 ∧ scores_get 2 = 300 ∧ scores_get 3 = 500
    ∧ scores_get 4 = 800 ∧ ∀ n, n < 1 ∨ 4 < n → scores_get n = 0.
Proof.
  intros Hb Hn Hbs Hall.
  destruct (lock_score nk s bs Hb Hn Hbs Hall)
    as (b & full & s' & Hloop & Hfull & Hlock & Hscore & _).
  exists b, full, s'. split_and!; try assumption; apply scores_get_table.
Qed.

Lemma lock_adds_score_witness :
  ∃ b full s',
    lock_loop (COLORS KI) (cur four_rows_state) [(2, 0); (2, 1); (2, 2); (2, 3)]
              (board four_rows_state) = Ok (b, false)
    ∧ full_rows b (Py.range ROWS) = Ok full
    ∧ lock KT four_rows_state = Ok s'
    ∧ score s' = 1000 + scores_get (Z.of_nat (length full)) * 3
    ∧ scores_get 1 = 100 ∧ scores_get 2 = 300 ∧ scores_get 3 = 500
    ∧ scores_get 4 = 800 ∧ ∀ n, n < 1 ∨ 4 < n → scores_get n = 0.
Proof.
  apply (lock_adds_score KT four_rows_state [(2, 0); (2, 1); (2, 2); (2, 3)]).
  - wf_board_all.
  - apply new_wf.
  - reflexivity.
  - in_board_all.
Defined.

Example four_rows_scored :
  (s' ← lock KT four_rows_state; Ok (score s', lines s', level s')) = Ok (3400, 29, 3).
Proof. vm_compute. reflexivity. Qed.

Lemma clear_lines_level (s s' : Tetris.t) :
  clear_lines s = Ok s' → level s ≤ level s'.
Proof.
  unfold clear_lines. intros H. apply bind_Ok in H as (full & _ & H).
  destruct (Z.of_nat (length full) =? 0); [injection H as <-; lia|].
  apply bind_Ok in H as (b & _ & H). cbn in H.
  destruct (_ >? _) in H; injection H as <-; simpl; lia.
Qed.

Lemma lock_level (nk : Kind) (s s' : Tetris.t) :
  lock nk s = Ok s' → level s ≤ level s'.
Proof.
  unfold lock. intros H. apply bind_Ok in H as (bs & _ & H).
  apply bind_Ok in H as ([b overflow] & _ & H). destruct overflow.
  - injection H as <-.
    destruct (persist_game_fields (with_game_over (with_board s b) true))
      as (_ & _ & _ & _ & _ & -> & _). simpl. lia.
  - apply bind_Ok in H as (s1 & Hc & H). apply clear_lines_level in Hc. simpl in Hc.
    apply bind_Ok in H as (v & _ & H). destruct v; simpl in H; injection H as <-.
    + simpl. exact Hc.
    + match goal with |- _ ≤ level (persist_game ?x) =>
        destruct (persist_game_fields x) as (_ & _ & _ & _ & _ & -> & _) end.
      simpl. exact Hc.
Qed.

Lemma move_level (dx dy : Z) (nk : Kind) (s s' : Tetris.t) :
  move dx dy nk s = Ok s' → level s ≤ level s'.
Proof.
  unfold move. destruct (paused s || game_over s); [intros [= <-]; lia|].
  intros H. apply bind_Ok in H as (v & _ & H). destruct v.
  - injection H as <-. simpl. lia.
  - destruct (dy =? 1); [eapply lock_level, H|injection H as <-; lia].
Qed.

Lemma rotate_loop_level (s s' : Tetris.t) (p : Piece.t) (ks : list Z) :
  rotate_loop s p ks = Ok s' → level s' = level s.
Proof.
  induction ks as [|k rest IH]; cbn [rotate_loop]; [intros [= <-]; reflexivity|].
  intros H. apply bind_Ok in H as (v & _ & H). destruct v; [|auto].
  injection H as <-. reflexivity.
Qed.

Lemma step_level (c : Command) (nk : Kind) (s s' : Tetris.t) :
  is_restart c = false → step c nk s = Ok s' → level s ≤ level s'.
Proof.
  destruct c; cbn [step is_restart]; intros Hr H; try discriminate.
  - eapply move_level, H.
  - unfold soft_drop in H. destruct (paused s || game_over s); [injection H as <-; lia|].
    apply bind_Ok in H as (s1 & Hm & H). injection H as <-. simpl.
    eapply move_level, Hm.
  - unfold hard_drop in H. destruct (paused s || game_over s); [injection H as <-; lia|].
    apply bind_Ok in H as ([p dist] & _ & H). apply bind_Ok in H as (s1 & Hl & H).
    injection H as <-. simpl. apply lock_level in Hl. exact Hl.
  - unfold rotate in H. destruct (paused s || game_over s); [injection H as <-; lia|].
    apply rotate_loop_level in H. lia.
  - injection H as <-. unfold toggle_pause. destruct (game_over s); simpl; lia.
  - unfold tick in H. destruct (negb (paused s) && negb (game_over s));
      [eapply move_level, H|injection H as <-; lia].
  - injection H as <-. unfold change_player. destruct (name_set name); simpl; lia.
Qed.

Lemma run_level (cs : list (Command * Kind)) (s s' : Tetris.t) :
  Forall (λ c, is_restart c.1 = false) cs → run cs s = Ok s' → level s ≤ level s'.
Proof.
  intros Hall. revert s. induction Hall as [|[c nk] rest Hc _ IH]; intros s H.
  - injection H as <-. lia.
  - cbn [run] in H. apply bind_Ok in H as (s1 & Hs & H).
    apply (step_level c nk s s1 Hc) in Hs. apply IH in H. lia.
Qed.

(** C7: when [clear_lines] finds [n > 0] full rows it adds [n] to [lines];
    then, if [lines // 10 + 1] exceeds the level, the level grows by exactly
    one and the delay becomes [max(80, 500 - 40 * (level - 1))] for the new
    level, and otherwise both stay.  Over any run of events without a
    restart the level never decreases. *)
Theorem level_up (s : Tetris.t) :
  wf_board (board s) →
  (∃ full s',
     full_rows (board s) (Py.range ROWS) = Ok full
     ∧ clear_lines s = Ok s'
     ∧ lines s' = lines s + Z.of_nat (length full)
     ∧ (full ≠ [] → lines s' `div` 10 + 1 > level s →
        level s' = level s + 1 ∧ delay s' = Z.max 80 (500 - 40 * (level s' - 1)))
     ∧ (full ≠ [] → lines s' `div` 10 + 1 ≤ level s →
        level s' = level s ∧ delay s' = delay s)
     ∧ (full = [] → s' = s))
  ∧ (∀ cs s', Forall (λ c, is_restart c.1 = false) cs →
              run cs s = Ok s' → level s ≤ level s').
Proof.
  intros Hb. split; [|intros cs s'; apply run_level].
  destruct (clear_lines_spec s Hb)
    as (full & s' & Hfull & Hclear & _ & _ & _ & _ & Hlines & _ & _ & _ & _ & Hnil & Hcons).
  exists full, s'. split_and!; try assumption.
  - intros Hne Hgt. specialize (Hcons Hne). change LINES_PER_LEVEL with 10 in Hcons.
    destruct (Z.gtb_spec (lines s' `div` 10 + 1) (level s)); [exact Hcons|lia].
  - intros Hne Hle. specialize (Hcons Hne). change LINES_PER_LEVEL with 10 in Hcons.
    destruct (Z.gtb_spec (lines s' `div` 10 + 1) (level s)); [lia|exact Hcons].
Qed.

Lemma level_up_witness :
  (∃ full s',
     full_rows (board ninth_line_state) (Py.range ROWS) = Ok full
     ∧ clear_lines ninth_line_state = Ok s'
     ∧ lines s' = 9 + Z.of_nat (length full)
     ∧ (full ≠ [] → lines s' `div` 10 + 1 > 1 →
        level s' = 1 + 1 ∧ delay s' = Z.max 80 (500 - 40 * (level s' - 1)))
     ∧ (full ≠ [] → lines s' `div` 10 + 1 ≤ 1 →
        level s' = 1 ∧ delay s' = 500)
     ∧ (full = [] → s' = ninth_line_state))
  ∧ (∀ cs s', Forall (λ c, is_restart c.1 = false) cs →
              run cs ninth_line_state = Ok s' → 1 ≤ level s').
Proof.
  apply (level_up ninth_line_state). wf_board_all.
Defined.

Example ninth_line_levels :
  (s' ← clear_lines ninth_line_state; Ok (lines s', level s', delay s', score s'))
  = Ok (10, 2, 460, 1000).
Proof. vm_compute. reflexivity. Qed.

(** ** Paused and finished games *)

Lemma run_game_over (cs : list (Command * Kind)) (s : Tetris.t) :
  game_over s = true → Forall (λ c, is_play c.1 = true) cs → run cs s = Ok s.
Proof.
  intros Hgo. induction 1 as [|[c nk] rest Hc _ IH]; [reflexivity|].
  cbn [run]. replace (step c nk s) with (Ok s); [exact IH|].
  destruct c; try discriminate; cbn [step];
    unfold move, soft_drop, hard_drop, rotate, toggle_pause, tick;
    rewrite Hgo, ?orb_true_r, ?andb_false_r; reflexivity.
Qed.

(** C8: while the game is paused or over, [move], [rotate], [soft_drop] and
    [hard_drop] return the state they were given, every field of it; once
    the game is over [toggle_pause] does so too, and so does every run of
    such commands and timer ticks. *)
Theorem paused_or_over_noop (s : Tetris.t) :
  paused s = true ∨ game_over s = true →
  (∀ dx dy nk, move dx dy nk s = Ok s)
  ∧ rotate s = Ok s
  ∧ (∀ nk, soft_drop nk s = Ok s)
  ∧ (∀ nk, hard_drop nk s = Ok s)
  ∧ (game_over s = true →
     toggle_pause s = s
     ∧ ∀ cs, Forall (λ c, is_play c.1 = true) cs → run cs s = Ok s).
Proof.
  intros H.
  assert (Hor : paused s || game_over s = true).
  { destruct H as [-> | ->]; [reflexivity|apply orb_true_r]. }
  unfold move, rotate, soft_drop, hard_drop. rewrite Hor.
  split_and!; try reflexivity.
  intros Hgo. split; [unfold toggle_pause; rewrite Hgo; reflexivity|].
  intros cs. apply run_game_over, Hgo.
Qed.

Lemma paused_or_over_noop_witness :
  let s := with_game_over (init KI KO []) true in
  game_over s = true
  ∧ (∀ dx dy nk, move dx dy nk s = Ok s)
  ∧ rotate s = Ok s
  ∧ (∀ nk, soft_drop nk s = Ok s)
  ∧ (∀ nk, hard_drop nk s = Ok s)
  ∧ toggle_pause s = s
  ∧ (∀ cs, Forall (λ c, is_play c.1 = true) cs → run cs s = Ok s).
Proof.
  intros s.
  destruct (paused_or_over_noop s (or_intror eq_refl)) as (Hm & Hr & Hs & Hh & Hgo).
  destruct (Hgo eq_refl) as [Ht Hrun].
  split_and!; [reflexivity|exact Hm|exact Hr|exact Hs|exact Hh|exact Ht|exact Hrun].
Defined.

Example paused_noop :
  let s := toggle_pause (init KI KO []) in
  paused s = true ∧ move (-1) 0 KT s = Ok s ∧ rotate s = Ok s
  ∧ soft_drop KT s = Ok s ∧ hard_drop KT s = Ok s.
Proof. vm_compute. repeat split; reflexivity. Qed.

(** ** [rotate] *)

Lemma valid_total (s : Tetris.t) (p : Piece.t) :
  wf_board (board s) → wf_piece p → valid s p = Ok true ∨ valid s p = Ok false.
Proof.
  intros Hb Hp. destruct (blocks_wf p Hp) as [bs Hbs].
  rewrite (valid_wf s p bs Hb Hbs). destruct (existsb _ bs); auto.
Qed.

Lemma rotate_loop_spec (s : Tetris.t) (p : Piece.t) (ks : list Z) :
  wf_board (board s) → wf_piece p →
  (∃ pre k post,
     ks = pre ++ k :: post
     ∧ Forall (λ j, valid s (Piece.moved p j 0) = Ok false) pre
     ∧ valid s (Piece.moved p k 0) = Ok true
     ∧ rotate_loop s p ks = Ok (with_cur s (Piece.moved p k 0)))
  ∨ (Forall (λ j, valid s (Piece.moved p j 0) = Ok false) ks
     ∧ rotate_loop s p ks = Ok s).
Proof.
  intros Hb Hp. induction ks as [|k rest IH].
  - right. split; [constructor|reflexivity].
  - cbn [rotate_loop].
    destruct (valid_total s (Piece.moved p k 0) Hb (moved_wf p k 0 Hp)) as [Hv|Hv];
      rewrite Hv; cbn [mbind result_bind].
    + left. exists [], k, rest. split_and!; [reflexivity|constructor|exact Hv|reflexivity].
    + destruct IH as [(pre & k' & post & -> & Hpre & Hk & Hr)|[Hall Hr]].
      * left. exists (k :: pre), k', post.
        split_and!; [reflexivity|constructor; assumption|exact Hk|exact Hr].
      * right. split; [constructor; assumption|exact Hr].
Qed.

(** C3: in a running game [rotate] takes the rotated piece and the kicks
    0, -1, 1, -2, 2 in this order; it sets the current piece to the first
    shifted candidate that [valid] accepts, and when [valid] accepts none
    it leaves the state as it was.  Whatever the flags, the piece after
    [rotate] is the piece before it or a placement [valid] accepts. *)
Theorem rotate_kicks (s : Tetris.t) :
  wf_board (board s) →
  kicks = [0; -1; 1; -2; 2]
  ∧ (paused s = false → game_over s = false →
     let p := Piece.rotated (cur s) in
     (∃ pre k post,
        kicks = pre ++ k :: post
        ∧ Forall (λ j, valid s (Piece.moved p j 0) = Ok false) pre
        ∧ valid s (Piece.moved p k 0) = Ok true
        ∧ rotate s = Ok (with_cur s (Piece.moved p k 0)))
     ∨ (Forall (λ j, valid s (Piece.moved p j 0) = Ok false) kicks
        ∧ rotate s = Ok s))
  ∧ (∃ s', rotate s = Ok s'
       ∧ (cur s' = cur s ∨ valid s' (cur s') = Ok true)).
Proof.
  intros Hb. split; [reflexivity|].
  pose proof (rotate_loop_spec s (Piece.rotated (cur s)) kicks Hb (rotated_wf (cur s))) as Hloop.
  split.
  - intros Hp Hgo. unfold rotate. rewrite Hp, Hgo. exact Hloop.
  - unfold rotate. destruct (paused s || game_over s); [exists s; auto|].
    destruct Hloop as [(pre & k & post & _ & _ & Hk & Hr)|[_ Hr]]; rewrite Hr.
    + eexists. split; [reflexivity|]. right. exact Hk.
    + exists s. auto.
Qed.
Lemma rotate_kicks_witness :
  let s := left_wall_state in
  let p := Piece.rotated (cur s) in
  ((∃ pre k post,
      kicks = pre ++ k :: post
      ∧ Forall (λ j, valid s (Piece.moved p j 0) = Ok false) pre
      ∧ valid s (Piece.moved p k 0) = Ok true
      ∧ rotate s = Ok (with_cur s (Piece.moved p k 0)))
   ∨ (Forall (λ j, valid s (Piece.moved p j 0) = Ok false) kicks
      ∧ rotate s = Ok s))
  ∧ (∃ s', rotate s = Ok s'
       ∧ (cur s' = cur s ∨ valid s' (cur s') = Ok true)).
Proof.
  intros s p.
  destruct (rotate_kicks s empty_board_wf) as (_ & Hrun & Hany).
  split; [exact (Hrun eq_refl eq_refl)|exact Hany].
Defined.

Example left_wall_kick :
  rotate left_wall_state = Ok (with_cur left_wall_state (Piece.mk KI 0 0 5))
  ∧ valid left_wall_state (Piece.mk KI 0 (-2) 5) = Ok false
  ∧ valid left_wall_state (Piece.mk KI 0 (-3) 5) = Ok false
  ∧ valid left_wall_state (Piece.mk KI 0 (-1) 5) = Ok false
  ∧ valid left_wall_state (Piece.mk KI 0 (-4) 5) = Ok false.
Proof. vm_compute. repeat split; reflexivity. Qed.

(** ** [hard_drop] *)

Lemma getitem_fuel {A} (l : list A) (i : Z) : Py.getitem l i ≠ OutOfFuel.
Proof.
  unfold Py.getitem, Py.index.
  destruct (0 <=? i); [destruct (i <? Z.of_nat (length l))|
                       destruct (- Z.of_nat (length l) <=? i)];
    cbn [mbind result_bind]; try discriminate;
    match goal with |- context [l !! ?k] => destruct (l !! k) end; discriminate.
Qed.

Lemma valid_loop_fuel (b : Board) (p : Piece.t) (bs : list (Z * Z)) :
  valid_loop b p bs ≠ OutOfFuel.
Proof.
  induction bs as [|[bx by_] rest IH]; cbn [valid_loop]; [discriminate|].
  destruct (_ || _); [discriminate|].
  destruct (Py.getitem b (Piece.y p + by_)) as [row| |] eqn:Hrow;
    cbn [mbind result_bind]; try discriminate.
  - destruct (Py.getitem row (Piece.x p + bx)) as [c| |] eqn:Hc;
      cbn [mbind result_bind]; try discriminate.
    + destruct (truthy c); [discriminate|exact IH].
    + exfalso. eapply getitem_fuel, Hc.
  - exfalso. eapply getitem_fuel, Hrow.
Qed.

Lemma valid_fuel (s : Tetris.t) (p : Piece.t) : valid s p ≠ OutOfFuel.
Proof.
  unfold valid, Piece.blocks.
  destruct (Py.getitem (SHAPES (Piece.kind p)) (Piece.rot p)) as [bs| |] eqn:Hbs;
    cbn [mbind result_bind]; try discriminate.
  - apply valid_loop_fuel.
  - exfalso. eapply getitem_fuel, Hbs.
Qed.

(** A placement [valid] accepts has its origin above the last row. *)
Lemma valid_origin (s : Tetris.t) (p : Piece.t) :
  valid s p = Ok true → 0 ≤ Piece.y p + 3 ∧ Piece.y p < ROWS.
Proof.
  intros H. destruct (valid_in_board s p H) as (bs & Hbs & Hall).
  pose proof (blocks_shape p bs Hbs) as Hok.
  destruct bs as [|blk rest]; [discriminate|].
  apply Forall_cons in Hall as [[_ Hy] _].
  destruct (shape_ok_offsets (blk :: rest) blk Hok) as [_ Hoff]; [apply list_elem_of_here|].
  lia.
Qed.

(** The loop of [hard_drop] ends within [drop_fuel] iterations, on every
    board and from every piece. *)
Lemma drop_loop_fuel (fuel : nat) (s : Tetris.t) (p : Piece.t) (dist : Z) :
  (Z.to_nat (ROWS - Piece.y p) < fuel)%nat → drop_loop fuel s p dist ≠ OutOfFuel.
Proof.
  revert p dist. induction fuel as [|fuel IH]; intros p dist Hfuel; [lia|].
  cbn [drop_loop].
  destruct (valid s (Piece.moved p 0 1)) as [v| |] eqn:Hv;
    cbn [mbind result_bind]; try discriminate.
  - destruct v; [|discriminate]. apply IH.
    apply valid_origin in Hv. cbn [Piece.moved Piece.y] in Hv |- *. lia.
  - exfalso. eapply valid_fuel, Hv.
Qed.

Lemma iter_down (d : nat) (p : Piece.t) :
  Nat.iter d down p
  = Piece.mk (Piece.kind p) (Piece.rot p) (Piece.x p) (Piece.y p + Z.of_nat d).
Proof.
  induction d as [|d IH].
  - destruct p. simpl. f_equal. lia.
  - rewrite Nat.iter_succ, IH. unfold down, Piece.moved. simpl. f_equal; lia.
Qed.

Lemma iter_down_wf (d : nat) (p : Piece.t) : wf_piece p → wf_piece (Nat.iter d down p).
Proof. intros Hp. rewrite iter_down. exact Hp. Qed.

Lemma iter_down_succ (d : nat) (p : Piece.t) :
  Nat.iter d down (down p) = Nat.iter (S d) down p.
Proof. rewrite !iter_down. unfold down, Piece.moved. simpl. f_equal; lia. Qed.

(** The loop stops after [d] accepted steps, at the first rejected one. *)
Lemma drop_loop_spec (fuel : nat) (s : Tetris.t) (p : Piece.t) (dist : Z) :
  wf_board (board s) → wf_piece p →
  (Z.to_nat (ROWS - Piece.y p) < fuel)%nat →
  ∃ d : nat,
    drop_loop fuel s p dist = Ok (Nat.iter d down p, dist + Z.of_nat d)
    ∧ (∀ k, (1 ≤ k ≤ d)%nat → valid s (Nat.iter k down p) = Ok true)
    ∧ valid s (Nat.iter (S d) down p) = Ok false.
Proof.
  intros Hb. revert p dist.
  induction fuel as [|fuel IH]; intros p dist Hp Hfuel; [lia|].
  cbn [drop_loop]. fold (down p).
  destruct (valid_total s (down p) Hb (moved_wf p 0 1 Hp)) as [Hv|Hv];
    rewrite Hv; cbn [mbind result_bind].
  - destruct (IH (down p) (dist + 1) (moved_wf p 0 1 Hp)) as (d & Hloop & Hok & Hstop).
    { apply valid_origin in Hv. unfold down in Hv |- *.
      cbn [Piece.moved Piece.y] in Hv |- *. lia. }
    exists (S d). split_and!.
    + rewrite Hloop, iter_down_succ. do 2 f_equal. lia.
    + intros k Hk. destruct k as [|k]; [lia|]. rewrite <- iter_down_succ.
      destruct k as [|k]; [exact Hv|]. apply Hok. lia.
    + rewrite <- iter_down_succ. exact Hstop.
  - exists 0%nat. split_and!.
    + simpl. do 2 f_equal. lia.
    + intros k Hk. lia.
    + exact Hv.
Qed.

(** C4: in a running game whose current piece is validly placed,
    [hard_drop] moves the piece down by [d] unit steps, where every one of
    the first [d] steps down is valid and step [d + 1] is not; it locks the
    piece there, and the score grows by [2 * d] plus the points the lock
    gives for the [n] full rows it counts, [scores.get(n, 0) * level]. *)
Theorem hard_drop_distance (nk : Kind) (s : Tetris.t) :
  wf_board (board s) → wf_piece (cur s) → wf_piece (next s) →
  valid s (cur s) = Ok true → paused s = false → game_over s = false →
  ∃ (d : nat) bs b full s1 s',
    (∀ k, (k ≤ d)%nat → valid s (Nat.iter k down (cur s)) = Ok true)
    ∧ valid s (Nat.iter (S d) down (cur s)) = Ok false
    ∧ Piece.blocks (cur s) = Ok bs
    ∧ lock_loop (COLORS (Piece.kind (cur s))) (Nat.iter d down (cur s)) bs (board s)
      = Ok (b, false)
    ∧ full_rows b (Py.range ROWS) = Ok full
    ∧ lock nk (with_cur s (Nat.iter d down (cur s))) = Ok s1
    ∧ hard_drop nk s = Ok s'
    ∧ s' = with_score s1 (score s1 + Z.of_nat d * 2)
    ∧ score s' = score s + 2 * Z.of_nat d
                 + scores_get (Z.of_nat (length full)) * level s.
Proof.
  intros Hb Hc Hn Hv Hp Hgo.
  destruct (drop_loop_spec (drop_fuel (cur s)) s (cur s) 0 Hb Hc) as (d & Hloop & Hok & Hstop).
  { unfold drop_fuel. lia. }
  assert (Hall : ∀ k, (k ≤ d)%nat → valid s (Nat.iter k down (cur s)) = Ok true).
  { intros k Hk. destruct k as [|k]; [exact Hv|]. apply Hok. lia. }
  destruct (valid_in_board s _ (Hall d (le_n d))) as (bs & Hbs & Hin).
  destruct (lock_score nk (with_cur s (Nat.iter d down (cur s))) bs)
    as (b & full & s1 & Hlock_loop & Hfull & Hlock & Hscore & _);
    try assumption.
  assert (Hkind : Piece.kind (Nat.iter d down (cur s)) = Piece.kind (cur s)).
  { rewrite iter_down. reflexivity. }
  assert (Hbs' : Piece.blocks (cur s) = Ok bs).
  { rewrite <- Hbs, iter_down. reflexivity. }
  cbn [with_cur cur board score level] in Hlock_loop, Hscore. rewrite Hkind in Hlock_loop.
  exists d, bs, b, full, s1. eexists. split_and!; try eassumption.
  - unfold hard_drop. rewrite Hp, Hgo. cbn [orb]. rewrite Hloop.
    cbn [mbind result_bind]. rewrite Hlock. cbn [mbind result_bind].
    rewrite Z.add_0_l. reflexivity.
  - reflexivity.
  - cbn [with_score score]. rewrite Hscore. lia.
Qed.
Lemma hard_drop_distance_witness :
  ∃ (d : nat) bs b full s1 s',
    (∀ k, (k ≤ d)%nat → valid four_rows_drop (Nat.iter k down (cur four_rows_drop)) = Ok true)
    ∧ valid four_rows_drop (Nat.iter (S d) down (cur four_rows_drop)) = Ok false
    ∧ Piece.blocks (cur four_rows_drop) = Ok bs
    ∧ lock_loop (COLORS KI) (Nat.iter d down (cur four_rows_drop)) bs (board four_rows_drop)
      = Ok (b, false)
    ∧ full_rows b (Py.range ROWS) = Ok full
    ∧ lock KT (with_cur four_rows_drop (Nat.iter d down (cur four_rows_drop))) = Ok s1
    ∧ hard_drop KT four_rows_drop = Ok s'
    ∧ s' = with_score s1 (score s1 + Z.of_nat d * 2)
    ∧ score s' = 1000 + 2 * Z.of_nat d + scores_get (Z.of_nat (length full)) * 3.
Proof.
  apply (hard_drop_distance KT four_rows_drop).
  - wf_board_all.
  - unfold wf_piece. simpl. lia.
  - apply new_wf.
  - vm_compute. reflexivity.
  - reflexivity.
  - reflexivity.
Defined.

Example four_rows_dropped :
  (s' ← hard_drop KT four_rows_drop; Ok (score s', lines s', cur s'))
  = Ok (3432, 29, Piece.new KO)
  ∧ valid four_rows_drop (Piece.mk KI 1 3 16) = Ok true
  ∧ valid four_rows_drop (Piece.mk KI 1 3 17) = Ok false.
Proof. vm_compute. repeat split; reflexivity. Qed.

(** ** The stored games *)

Lemma persist_game_games (s : Tetris.t) :
  games (persist_game s) = games s ++ stored_row s (score s).
Proof.
  unfold persist_game, stored_row.
  destruct (player_name s) as [v|]; [destruct (negb (String.eqb v ""))|];
    simpl; rewrite ?app_nil_r; reflexivity.
Qed.

Lemma stored_row_fields (s s' : Tetris.t) (sc : Z) :
  player_name s' = player_name s → lines s' = lines s → level s' = level s →
  stored_row s' sc = stored_row s sc.
Proof. unfold stored_row. intros -> -> ->. reflexivity. Qed.

Lemma clear_lines_frame (s s' : Tetris.t) :
  clear_lines s = Ok s' →
  games s' = games s ∧ player_name s' = player_name s ∧ game_over s' = game_over s.
Proof.
  unfold clear_lines. intros H. apply bind_Ok in H as (full & _ & H).
  destruct (Z.of_nat (length full) =? 0); [injection H as <-; auto|].
  apply bind_Ok in H as (b & _ & H). cbn in H.
  destruct (_ >? _) in H; injection H as <-; auto.
Qed.

(** [lock] stores a row exactly when it ends the game, with the score, the
    lines and the level it leaves. *)
Lemma lock_games (nk : Kind) (s s' : Tetris.t) :
  lock nk s = Ok s' →
  (game_over s' = game_over s ∧ games s' = games s)
  ∨ (game_over s' = true ∧ games s' = games s ++ stored_row s' (score s')).
Proof.
  unfold lock. intros H. apply bind_Ok in H as (bs & _ & H).
  apply bind_Ok in H as ([b overflow] & _ & H). destruct overflow.
  - injection H as <-. right.
    destruct (persist_game_fields (with_game_over (with_board s b) true))
      as (_ & _ & _ & Hs & Hl & Hv & _ & _ & Hgo & Hn).
    rewrite Hgo, persist_game_games, Hs. split; [reflexivity|].
    f_equal. symmetry. apply stored_row_fields; assumption.
  - apply bind_Ok in H as (s1 & Hc & H).
    destruct (clear_lines_frame _ _ Hc) as (Hg1 & Hn1 & Hgo1). simpl in Hg1, Hn1, Hgo1.
    apply bind_Ok in H as (v & _ & H). destruct v; simpl in H; injection H as <-.
    + left. simpl. auto.
    + right.
      match goal with |- context [persist_game ?x] =>
        destruct (persist_game_fields x) as (_ & _ & _ & Hs & Hl & Hv & _ & _ & Hgo & Hn);
        rewrite Hgo, (persist_game_games x), Hs end.
      split; [reflexivity|]. simpl. rewrite Hg1. f_equal.
      symmetry. apply stored_row_fields; assumption.
Qed.

Lemma move_games (dx dy : Z) (nk : Kind) (s s' : Tetris.t) :
  move dx dy nk s = Ok s' →
  (game_over s' = game_over s ∧ games s' = games s)
  ∨ (game_over s = false ∧ game_over s' = true
     ∧ games s' = games s ++ stored_row s' (score s')).
Proof.
  unfold move. destruct (paused s || game_over s) eqn:Hflags; [intros [= <-]; auto|].
  apply orb_false_iff in Hflags as [_ Hgo].
  intros H. apply bind_Ok in H as (v & _ & H). destruct v; [injection H as <-; auto|].
  destruct (dy =? 1); [|injection H as <-; auto].
  destruct (lock_games nk s s' H) as [Hsame|[Hover Hrow]]; auto.
Qed.

Lemma drop_loop_dist (fuel : nat) (s : Tetris.t) (p q : Piece.t) (d d' : Z) :
  drop_loop fuel s p d = Ok (q, d') → d ≤ d'.
Proof.
  revert p d. induction fuel as [|fuel IH]; intros p d; cbn [drop_loop]; [discriminate|].
  intros H. apply bind_Ok in H as (v & _ & H). destruct v.
  - apply IH in H. lia.
  - injection H as _ <-. lia.
Qed.

(** The [Game] table over one event: it grows only when the event ends the
    game, then by the one row of [stored_row], none without a player name.
    The row has the lines and the level the game ends with; its score is
    the final score only when the timer or a plain move ended the game: a
    soft drop ends with one point more, a hard drop with two points more
    for each row it fell. *)
Lemma step_games (c : Command) (nk : Kind) (s s' : Tetris.t) :
  step c nk s = Ok s' →
  (games s' = games s ∧ (game_over s = false → game_over s' = false))
  ∨ (game_over s = false ∧ game_over s' = true
     ∧ ∃ sc, games s' = games s ++ stored_row s' sc
             ∧ (score s' = sc
                ∨ (c = SoftDrop ∧ score s' = sc + 1)
                ∨ (c = HardDrop ∧ ∃ d, 0 ≤ d ∧ score s' = sc + d * 2))).
Proof.
  assert (Hmove : ∀ dx dy s1, move dx dy nk s = Ok s1 →
            (games s1 = games s ∧ (game_over s = false → game_over s1 = false))
            ∨ (game_over s = false ∧ game_over s1 = true
               ∧ games s1 = games s ++ stored_row s1 (score s1))).
  { intros dx dy s1 H. destruct (move_games dx dy nk s s1 H) as [[Hgo Hg]|H2]; [left|auto].
    split; [exact Hg|]. intros H0. rewrite Hgo. exact H0. }
  destruct c; cbn [step]; intros H.
  - destruct (Hmove _ _ _ H) as [?|(H1 & H2 & H3)]; [auto|]. right. eauto 8.
  - unfold soft_drop in H. destruct (paused s || game_over s); [injection H as <-; auto|].
    apply bind_Ok in H as (s1 & Hm & H). injection H as <-.
    destruct (Hmove _ _ _ Hm) as [?|(H1 & H2 & H3)]; [auto|]. right.
    split_and!; [exact H1|exact H2|]. exists (score s1). split; [exact H3|].
    right. left. auto.
  - unfold hard_drop in H. destruct (paused s || game_over s) eqn:Hflags;
      [injection H as <-; auto|].
    apply orb_false_iff in Hflags as [_ Hgo].
    apply bind_Ok in H as ([p dist] & Hloop & H). apply drop_loop_dist in Hloop.
    apply bind_Ok in H as (s1 & Hl & H). injection H as <-.
    destruct (lock_games nk _ s1 Hl) as [[H1 H2]|[H1 H2]]; simpl in H1, H2.
    + left. simpl. split; [exact H2|]. intros _. rewrite H1. exact Hgo.
    + right. split_and!; [exact Hgo|exact H1|]. exists (score s1).
      split; [exact H2|]. right. right. eauto.
  - left. unfold rotate in H. destruct (paused s || game_over s); [injection H as <-; auto|].
    revert H. generalize (Piece.rotated (cur s)). intros p.
    induction kicks as [|k rest IH]; cbn [rotate_loop]; [intros [= <-]; auto|].
    intros H. apply bind_Ok in H as (v & _ & H). destruct v; [injection H as <-; auto|auto].
  - left. injection H as <-. unfold toggle_pause.
    destruct (game_over s) eqn:Hgo; split; try reflexivity; simpl; congruence.
  - left. injection H as <-. split; [reflexivity|intros _; reflexivity].
  - unfold tick in H. destruct (negb (paused s) && negb (game_over s));
      [|injection H as <-; auto].
    destruct (Hmove _ _ _ H) as [?|(H1 & H2 & H3)]; [auto|]. right. eauto 8.
  - left. injection H as <-. unfold change_player. destruct (name_set name); auto.
Qed.

(** ** Where the code leaves the specification *)

(** C5 (fails on the code): the O piece completes rows 18 and 19.  The code
    finds both, deletes row 19, and then deletes index 18 of the shifted
    board, which is the old row 17: the old row 18, full, stays as the new
    row 19, and the row above the two, not full, is gone.  Removing the two
    full rows keeps that row instead. *)
Theorem clear_lines_leaves_full_row :
  ∃ b s',
    lock_loop (COLORS KO) (cur two_rows_state) [(1, 0); (2, 0); (1, 1); (2, 1)]
              (board two_rows_state) = Ok (b, false)
    ∧ full_rows b (Py.range ROWS) = Ok [18; 19]
    ∧ lock KT two_rows_state = Ok s'
    ∧ lines s' = 2
    ∧ board s' = replicate 19 empty_row ++ [replicate 10 (Some (COLORS KO))]
    ∧ spec_clear_full_rows b
      = replicate 19 empty_row ++ [Some (COLORS KT) :: replicate 9 None].
Proof.
  eexists. eexists. split; [vm_compute; reflexivity|].
  split; [vm_compute; reflexivity|].
  split; [vm_compute; reflexivity|].
  vm_compute. repeat split; reflexivity.
Qed.

(** With one full row the code and the specification agree. *)
Example clear_one_row :
  (s' ← clear_lines ninth_line_state; Ok (board s'))
  = Ok (spec_clear_full_rows (board ninth_line_state)).
Proof. vm_compute. reflexivity. Qed.

(** The four rows an I piece completes: two of them stay on the board. *)
Example four_rows_left :
  (s' ← hard_drop KT four_rows_drop; Ok (board s'))
  = Ok (replicate 18 empty_row
        ++ replicate 2 (<[5%nat := Some (COLORS KI)]> (replicate 10 (Some (COLORS KO)))))
  ∧ (s' ← hard_drop KT four_rows_drop; Ok (lines s')) = Ok 29.
Proof. vm_compute. split; reflexivity. Qed.

(** Full rows the first clear leaves are counted again by the next one: a
    second I piece in the well completes four rows and [clear_lines] counts
    six, a count the score table does not have. *)
Example six_rows_counted :
  (s ← run [(HardDrop, KI); (Rotate, KI)] well_state;
   '(p, _) ← drop_loop (drop_fuel (cur s)) s (cur s) 0;
   bs ← Piece.blocks p;
   '(b, _) ← lock_loop (COLORS KI) p bs (board s);
   full_rows b (Py.range ROWS)) = Ok [14; 15; 16; 17; 18; 19]
  ∧ (s ← run [(HardDrop, KI); (Rotate, KI)] well_state; Ok (score s, lines s))
    = Ok (832, 4)
  ∧ (s ← run [(HardDrop, KI); (Rotate, KI); (HardDrop, KI)] well_state;
     Ok (score s, lines s)) = Ok (860, 10).
Proof. vm_compute. repeat split; reflexivity. Qed.

(** C9 (fails on the code): in the game [ten_drops] the tenth hard drop
    falls one row and ends the game.  [lock] stores the row with the score
    it sees, 196, and [hard_drop] adds its 2 points afterwards: the game
    ends with 198 points and a stored score of 196. *)
Theorem stored_score_misses_drop :
  ∃ s',
    run ten_drops (init KI KO []) = Ok s'
    ∧ game_over s' = true
    ∧ score s' = 198 ∧ lines s' = 0 ∧ level s' = 1
    ∧ games s' = [mkGame "ann" 196 0 1].
Proof. eexists. split; [vm_compute; reflexivity|]. vm_compute. repeat split; reflexivity. Qed.

(** The same with [soft_drop]: the stored score lacks its point. *)
Example stored_score_misses_soft_drop :
  (s' ← run nine_drops_soft (init KO KO []); Ok (game_over s', score s', games s'))
  = Ok (true, 181, [mkGame "ann" 180 0 1]).
Proof. vm_compute. reflexivity. Qed.

(** ** The invariant of the reachable states *)

Lemma new_in_board (k : Kind) (bs : list (Z * Z)) :
  Piece.blocks (Piece.new k) = Ok bs → Forall (in_board (Piece.new k)) bs.
Proof.
  intros Hbs. pose proof (blocks_shape _ _ Hbs) as Hok.
  apply Forall_forall. intros blk Hin.
  destruct (shape_ok_offsets bs blk Hok Hin) as [Hx Hy].
  unfold in_board, Piece.new, COLS, ROWS. simpl. lia.
Qed.

Lemma new_valid_empty (s : Tetris.t) (k : Kind) :
  board s = empty_board → valid s (Piece.new k) = Ok true.
Proof. unfold valid. intros ->. destruct k; vm_compute; reflexivity. Qed.

Lemma Inv_fresh (s : Tetris.t) (k1 k2 : Kind) :
  board s = empty_board → cur s = Piece.new k1 → next s = Piece.new k2 → Inv s.
Proof.
  intros Hb Hc Hn. split.
  - rewrite Hb. exact empty_board_wf.
  - rewrite Hc. apply new_wf.
  - rewrite Hn. reflexivity.
  - rewrite Hc. apply new_in_board.
  - intros _. rewrite Hc. apply new_valid_empty, Hb.
Qed.

Lemma Inv_fields (s s' : Tetris.t) :
  board s' = board s → cur s' = cur s → next s' = next s →
  (game_over s' = false → game_over s = false) →
  Inv s → Inv s'.
Proof.
  intros Hb Hc Hn Hgo [Ib Ic In Iin Iv]. split.
  - rewrite Hb. exact Ib.
  - rewrite Hc. exact Ic.
  - rewrite Hn. exact In.
  - rewrite Hc. exact Iin.
  - intros H. rewrite Hc. rewrite (valid_board s' s _ Hb). auto.
Qed.

Lemma Inv_with_cur (s : Tetris.t) (p : Piece.t) :
  Inv s → wf_piece p → valid s p = Ok true → Inv (with_cur s p).
Proof.
  intros [Ib Ic In Iin Iv] Hp Hv. split; cbn [with_cur board cur next game_over].
  - exact Ib.
  - exact Hp.
  - exact In.
  - intros bs Hbs. destruct (valid_in_board s p Hv) as (bs' & Hbs' & Hall).
    rewrite Hbs in Hbs'. injection Hbs' as <-. exact Hall.
  - intros _. exact Hv.
Qed.

(** What [lock] leaves when the piece it locks lies inside the board. *)
Lemma lock_in_board (nk : Kind) (s s' : Tetris.t) (bs : list (Z * Z)) :
  wf_board (board s) → next s = Piece.new (Piece.kind (next s)) →
  Piece.blocks (cur s) = Ok bs → Forall (in_board (cur s)) bs →
  lock nk s = Ok s' →
  Inv s' ∧ cur s' = next s
  ∧ (game_over s = false → game_over s' = true → valid s' (cur s') = Ok false).
Proof.
  intros Hb Hn Hbs Hall Hlock.
  assert (Hnwf : wf_piece (next s)) by (rewrite Hn; apply new_wf).
  destruct (lock_spec nk s bs Hb Hnwf Hbs Hall) as (b & s1 & v & _ & Hwb & Hclear & Hv & Hlock').
  rewrite Hlock in Hlock'. injection Hlock' as ->.
  destruct (clear_lines_spec (with_board s b) Hwb)
    as (full & s1' & _ & Hclear' & Hwb1 & _ & _ & _ & _ & _ & Hgo1 & _).
  rewrite Hclear in Hclear'. injection Hclear' as <-. simpl in Hgo1.
  set (s2 := with_next (with_cur s1 (next s)) (new_piece nk)).
  assert (Hin2 : ∀ bs2, Piece.blocks (next s) = Ok bs2 → Forall (in_board (next s)) bs2).
  { rewrite Hn. apply new_in_board. }
  destruct v; cbn zeta.
  - split_and!; [|reflexivity|].
    + split; try assumption; [reflexivity|]. intros _. exact Hv.
    + intros Hgo. simpl. rewrite Hgo1, Hgo. discriminate.
  - destruct (persist_game_fields (with_game_over s2 true))
      as (Pb & Pc & Pn & _ & _ & _ & _ & _ & Pgo & _).
    split_and!.
    + split.
      * rewrite Pb. exact Hwb1.
      * rewrite Pc. exact Hnwf.
      * rewrite Pn. reflexivity.
      * rewrite Pc. exact Hin2.
      * rewrite Pgo. discriminate.
    + rewrite Pc. reflexivity.
    + intros _ _. rewrite Pc.
      rewrite (valid_board _ s1 _ Pb). exact Hv.
Qed.

Lemma move_Inv (dx dy : Z) (nk : Kind) (s s' : Tetris.t) :
  Inv s → move dx dy nk s = Ok s' →
  Inv s'
  ∧ (game_over s = false → game_over s' = true →
     cur s' = next s ∧ valid s' (cur s') = Ok false).
Proof.
  intros HI. unfold move.
  destruct (paused s || game_over s).
  { intros [= <-]. split; [exact HI|]. intros ->. discriminate. }
  intros H. apply bind_Ok in H as (v & Hv & H). destruct v.
  - injection H as <-. split.
    + apply Inv_with_cur; [exact HI| |exact Hv].
      apply moved_wf, HI.
    + simpl. intros ->. discriminate.
  - destruct (dy =? 1).
    + destruct (blocks_wf (cur s) (inv_cur s HI)) as [bs Hbs].
      destruct (lock_in_board nk s s' bs (inv_board s HI) (inv_next s HI) Hbs
                  (inv_in_board s HI bs Hbs) H) as (HI' & Hc & Hgo).
      split; [exact HI'|]. intros H1 H2. split; [exact Hc|auto].
    + injection H as <-. split; [exact HI|]. intros ->. discriminate.
Qed.

Lemma rotate_Inv (s s' : Tetris.t) :
  Inv s → rotate s = Ok s' → Inv s' ∧ game_over s' = game_over s.
Proof.
  intros HI. unfold rotate.
  destruct (paused s || game_over s); [intros [= <-]; auto|].
  destruct (rotate_loop_spec s (Piece.rotated (cur s)) kicks (inv_board s HI)
              (rotated_wf (cur s)))
    as [(pre & k & post & _ & _ & Hk & Hr)|[_ Hr]]; rewrite Hr; intros [= <-].
  - split; [|reflexivity]. apply Inv_with_cur; [exact HI| |exact Hk].
    apply moved_wf, rotated_wf.
  - auto.
Qed.

(** The piece [hard_drop] hands to [lock] lies inside the board. *)
Lemma drop_loop_in_board (s : Tetris.t) (p : Piece.t) (dist : Z) (bs : list (Z * Z)) :
  Inv s → drop_loop (drop_fuel (cur s)) s (cur s) 0 = Ok (p, dist) →
  Piece.blocks p = Ok bs → Forall (in_board p) bs.
Proof.
  intros HI Hloop Hbs.
  destruct (drop_loop_spec (drop_fuel (cur s)) s (cur s) 0 (inv_board s HI) (inv_cur s HI))
    as (d & Hloop' & Hok & _); [unfold drop_fuel; lia|].
  rewrite Hloop in Hloop'. injection Hloop' as -> _.
  destruct d as [|d].
  - simpl in Hbs |- *. apply (inv_in_board s HI), Hbs.
  - destruct (valid_in_board s _ (Hok (S d) (conj (le_n_S _ _ (Nat.le_0_l d)) (le_n _))))
      as (bs' & Hbs' & Hall).
    rewrite Hbs in Hbs'. injection Hbs' as <-. exact Hall.
Qed.

Lemma hard_drop_Inv (nk : Kind) (s s' : Tetris.t) :
  Inv s → hard_drop nk s = Ok s' →
  Inv s'
  ∧ (game_over s = false → game_over s' = true →
     cur s' = next s ∧ valid s' (cur s') = Ok false).
Proof.
  intros HI. unfold hard_drop.
  destruct (paused s || game_over s).
  { intros [= <-]. split; [exact HI|]. intros ->. discriminate. }
  intros H. apply bind_Ok in H as ([p dist] & Hloop & H).
  apply bind_Ok in H as (s1 & Hlock & H). injection H as <-.
  assert (Hbs : ∃ bs, Piece.blocks p = Ok bs).
  { unfold lock in Hlock. apply bind_Ok in Hlock as (bs & Hbs & _). eauto. }
  destruct Hbs as [bs Hbs].
  destruct (lock_in_board nk (with_cur s p) s1 bs (inv_board s HI) (inv_next s HI) Hbs
              (drop_loop_in_board s p dist bs HI Hloop Hbs) Hlock) as (HI1 & Hc & Hgo).
  split.
  - eapply Inv_fields; [| | | |exact HI1]; auto.
  - intros H1 H2. split; [exact Hc|]. exact (Hgo H1 H2).
Qed.

Lemma step_Inv (c : Command) (nk : Kind) (s s' : Tetris.t) :
  Inv s → step c nk s = Ok s' →
  Inv s'
  ∧ (game_over s = false → game_over s' = true →
     cur s' = next s ∧ valid s' (cur s') = Ok false).
Proof.
  intros HI. destruct c; cbn [step]; intros H.
  - eapply move_Inv; eassumption.
  - unfold soft_drop in H. destruct (paused s || game_over s).
    { injection H as <-. split; [exact HI|]. intros ->. discriminate. }
    apply bind_Ok in H as (s1 & Hm & H). injection H as <-.
    destruct (move_Inv 0 1 nk s s1 HI Hm) as [HI1 Hgo]. split.
    + eapply Inv_fields; [| | | |exact HI1]; auto.
    + intros H1 H2. destruct (Hgo H1 H2) as [Hc Hv]. split; [exact Hc|exact Hv].
  - eapply hard_drop_Inv; eassumption.
  - destruct (rotate_Inv s s' HI H) as [HI' Hgo]. split; [exact HI'|].
    rewrite Hgo. intros ->. discriminate.
  - injection H as <-. unfold toggle_pause. destruct (game_over s) eqn:Hgo.
    + split; [exact HI|]. discriminate.
    + split; [eapply Inv_fields; [| | | |exact HI]; auto|].
      simpl. rewrite Hgo. discriminate.
  - injection H as <-. split; [eapply Inv_fresh; reflexivity|].
    simpl. discriminate.
  - unfold tick in H. destruct (negb (paused s) && negb (game_over s)).
    + eapply move_Inv; eassumption.
    + injection H as <-. split; [exact HI|]. intros ->. discriminate.
  - injection H as <-. unfold change_player. destruct (name_set name).
    + split; [eapply Inv_fields; [| | | |exact HI]; auto|].
      simpl. intros ->. discriminate.
    + split; [exact HI|]. intros ->. discriminate.
Qed.

Lemma reachable_Inv (s : Tetris.t) : reachable s → Inv s.
Proof.
  induction 1 as [k1 k2 stored|s c nk s' _ IH Hstep].
  - eapply Inv_fresh; reflexivity.
  - eapply step_Inv; eassumption.
Qed.

Lemma lock_total (nk : Kind) (s : Tetris.t) (bs : list (Z * Z)) :
  wf_board (board s) → wf_piece (next s) →
  Piece.blocks (cur s) = Ok bs → Forall (in_board (cur s)) bs →
  ∃ s', lock nk s = Ok s'.
Proof.
  intros Hb Hn Hbs Hall.
  destruct (lock_spec nk s bs Hb Hn Hbs Hall) as (b & s1 & v & _ & _ & _ & _ & Hlock).
  eauto.
Qed.

Lemma Inv_next_wf (s : Tetris.t) : Inv s → wf_piece (next s).
Proof. intros HI. rewrite (inv_next s HI). apply new_wf. Qed.

Lemma move_total (dx dy : Z) (nk : Kind) (s : Tetris.t) :
  Inv s → ∃ s', move dx dy nk s = Ok s'.
Proof.
  intros HI. unfold move. destruct (paused s || game_over s); [eauto|].
  destruct (valid_total s (Piece.moved (cur s) dx dy) (inv_board s HI)
              (moved_wf _ dx dy (inv_cur s HI))) as [Hv|Hv];
    rewrite Hv; cbn [mbind result_bind]; [eauto|].
  destruct (dy =? 1); [|eauto].
  destruct (blocks_wf (cur s) (inv_cur s HI)) as [bs Hbs].
  eapply lock_total; [apply HI|apply Inv_next_wf, HI|exact Hbs|apply HI, Hbs].
Qed.

(** No event raises [IndexError] in a state that keeps the invariant, and
    the loop of [hard_drop] has fuel enough. *)
Lemma step_total (c : Command) (nk : Kind) (s : Tetris.t) :
  Inv s → ∃ s', step c nk s = Ok s'.
Proof.
  intros HI. destruct c; cbn [step]; eauto using move_total.
  - unfold soft_drop. destruct (paused s || game_over s); [eauto|].
    destruct (move_total 0 1 nk s HI) as [s1 ->]. cbn [mbind result_bind]. eauto.
  - unfold hard_drop. destruct (paused s || game_over s); [eauto|].
    destruct (drop_loop_spec (drop_fuel (cur s)) s (cur s) 0 (inv_board s HI) (inv_cur s HI))
      as (d & Hloop & _); [unfold drop_fuel; lia|].
    rewrite Hloop. cbn [mbind result_bind].
    destruct (blocks_wf _ (iter_down_wf d (cur s) (inv_cur s HI))) as [bs Hbs].
    destruct (lock_total nk (with_cur s (Nat.iter d down (cur s))) bs) as [s1 Hlock].
    + exact (inv_board s HI).
    + exact (Inv_next_wf s HI).
    + exact Hbs.
    + eapply drop_loop_in_board; eassumption.
    + rewrite Hlock. cbn [mbind result_bind]. eauto.
  - unfold rotate. destruct (paused s || game_over s); [eauto|].
    destruct (rotate_loop_spec s (Piece.rotated (cur s)) kicks (inv_board s HI)
                (rotated_wf (cur s)))
      as [(pre & k & post & _ & _ & _ & Hr)|[_ Hr]]; rewrite Hr; eauto.
  - unfold tick. destruct (negb (paused s) && negb (game_over s)); eauto using move_total.
Qed.

Lemma above_board_invalid (s : Tetris.t) (p : Piece.t) (bs : list (Z * Z)) :
  Piece.blocks p = Ok bs → above_board p bs → valid s p ≠ Ok true.
Proof.
  intros Hbs (blk & Hin & Hneg) Hv.
  destruct (valid_in_board s p Hv) as (bs' & Hbs' & Hall).
  rewrite Hbs in Hbs'. injection Hbs' as <-.
  rewrite Forall_forall in Hall. destruct (Hall blk Hin) as [_ Hy]. lia.
Qed.

(** C10: in every reachable state all blocks of the current piece are on
    rows 0 and below.  Pieces are created at (3, 0) and every offset of the
    shape table is at least 0; [valid] accepts no placement with a block
    above the board.  So [lock] never leaves through its [y < 0] branch,
    whether [move] calls it on the current piece or [hard_drop] on the
    dropped one, and a game that ends does so because the piece that has
    just become current, created from the next kind, is not valid. *)
Theorem current_piece_on_board (s : Tetris.t) :
  reachable s →
  (∃ bs, Piece.blocks (cur s) = Ok bs
         ∧ Forall (λ blk, 0 ≤ Piece.y (cur s) + blk.2) bs)
  ∧ (∀ k, Piece.new k = Piece.mk k 0 3 0
          ∧ ∀ bs blk, bs ∈ SHAPES k → blk ∈ bs → 0 ≤ blk.1 ∧ 0 ≤ blk.2)
  ∧ (∀ s0 p bs, Piece.blocks p = Ok bs → above_board p bs → valid s0 p ≠ Ok true)
  ∧ (∀ bs, Piece.blocks (cur s) = Ok bs →
       ∃ b, lock_loop (COLORS (Piece.kind (cur s))) (cur s) bs (board s) = Ok (b, false))
  ∧ (∀ p dist bs,
       drop_loop (drop_fuel (cur s)) s (cur s) 0 = Ok (p, dist) →
       Piece.blocks p = Ok bs →
       ∃ b, lock_loop (COLORS (Piece.kind p)) p bs (board s) = Ok (b, false))
  ∧ (∀ c nk s',
       step c nk s = Ok s' → game_over s = false → game_over s' = true →
       cur s' = next s ∧ next s = Piece.new (Piece.kind (next s))
       ∧ valid s' (cur s') = Ok false).
Proof.
  intros Hr. pose proof (reachable_Inv s Hr) as HI. split_and!.
  - destruct (blocks_wf (cur s) (inv_cur s HI)) as [bs Hbs]. exists bs.
    split; [exact Hbs|]. eapply Forall_impl; [apply (inv_in_board s HI), Hbs|].
    intros blk [_ Hy]. lia.
  - intros k. split; [reflexivity|]. intros bs blk Hbs Hblk.
    pose proof (SHAPES_ok k) as Hall. rewrite forallb_forall in Hall.
    apply list_elem_of_In in Hbs.
    destruct (shape_ok_offsets bs blk (Hall bs Hbs) Hblk). lia.
  - intros s0 p bs. apply above_board_invalid.
  - intros bs Hbs.
    destruct (lock_loop_in_board (COLORS (Piece.kind (cur s))) (cur s) bs (board s)
                (inv_board s HI) (inv_in_board s HI bs Hbs)) as (b & Hb & _).
    eauto.
  - intros p dist bs Hloop Hbs.
    destruct (lock_loop_in_board (COLORS (Piece.kind p)) p bs (board s)
                (inv_board s HI) (drop_loop_in_board s p dist bs HI Hloop Hbs)) as (b & Hb & _).
    eauto.
  - intros c nk s' Hstep H1 H2.
    destruct (step_Inv c nk s s' HI Hstep) as [_ Hgo].
    destruct (Hgo H1 H2) as [Hc Hv]. split_and!; [exact Hc|apply HI|exact Hv].
Qed.

Lemma current_piece_on_board_witness :
  let s := init KI KO [] in
  (∃ bs, Piece.blocks (cur s) = Ok bs
         ∧ Forall (λ blk, 0 ≤ Piece.y (cur s) + blk.2) bs)
  ∧ (∀ k, Piece.new k = Piece.mk k 0 3 0
          ∧ ∀ bs blk, bs ∈ SHAPES k → blk ∈ bs → 0 ≤ blk.1 ∧ 0 ≤ blk.2)
  ∧ (∀ s0 p bs, Piece.blocks p = Ok bs → above_board p bs → valid s0 p ≠ Ok true)
  ∧ (∀ bs, Piece.blocks (cur s) = Ok bs →
       ∃ b, lock_loop (COLORS (Piece.kind (cur s))) (cur s) bs (board s) = Ok (b, false))
  ∧ (∀ p dist bs,
       drop_loop (drop_fuel (cur s)) s (cur s) 0 = Ok (p, dist) →
       Piece.blocks p = Ok bs →
       ∃ b, lock_loop (COLORS (Piece.kind p)) p bs (board s) = Ok (b, false))
  ∧ (∀ c nk s',
       step c nk s = Ok s' → game_over s = false → game_over s' = true →
       cur s' = next s ∧ next s = Piece.new (Piece.kind (next s))
       ∧ valid s' (cur s') = Ok false).
Proof.
  intros s. apply (current_piece_on_board s). apply reach_init.
Defined.

(** Every run of events from the start goes through without an exception. *)
Lemma reachable_step_total (c : Command) (nk : Kind) (s : Tetris.t) :
  reachable s → ∃ s', step c nk s = Ok s' ∧ reachable s'.
Proof.
  intros Hr. destruct (step_total c nk s (reachable_Inv s Hr)) as [s' Hs].
  exists s'. split; [exact Hs|]. eapply reach_step; eassumption.
Qed.

(** * Further properties *)

(** ** The ghost piece *)

Lemma piece_eta (p : Piece.t) :
  Piece.mk (Piece.kind p) (Piece.rot p) (Piece.x p) (Piece.y p) = p.
Proof. destruct p; reflexivity. Qed.

Lemma ghost_loop_drop_loop (fuel : nat) (s : Tetris.t) (p : Piece.t) (dist : Z) :
  ghost_loop fuel s p = (r ← drop_loop fuel s p dist; Ok r.1).
Proof.
  revert p dist. induction fuel as [|fuel IH]; intros p dist; [reflexivity|].
  cbn [ghost_loop drop_loop].
  destruct (valid s (Piece.moved p 0 1)) as [v| |]; cbn [mbind result_bind];
    try reflexivity.
  destruct v; [apply IH|reflexivity].
Qed.

Lemma drop_loop_rows (fuel : nat) (s : Tetris.t) (p q : Piece.t) (d d' : Z) :
  drop_loop fuel s p d = Ok (q, d') →
  Piece.kind q = Piece.kind p ∧ Piece.rot q = Piece.rot p
  ∧ Piece.x q = Piece.x p ∧ d' - d = Piece.y q - Piece.y p
  ∧ valid s (Piece.moved q 0 1) = Ok false.
Proof.
  revert p d. induction fuel as [|fuel IH]; intros p d; cbn [drop_loop]; [discriminate|].
  intros Hd. apply bind_Ok in Hd as (v & Hv & Hd). destruct v.
  - apply IH in Hd as (Hk & Hr & Hx & Hy & Hstop). cbn in Hk, Hr, Hx, Hy.
    split_and!; try assumption; lia.
  - injection Hd as <- <-. split_and!; try reflexivity; [lia|exact Hv].
Qed.

(** X1: in a running game [hard_drop] locks the piece exactly where
    [ghost_piece] shows it, and pays two points for every row between the
    piece and its ghost. *)
Theorem hard_drop_at_ghost (nk : Kind) (s : Tetris.t) :
  paused s = false → game_over s = false →
  hard_drop nk s =
  (g ← ghost_piece s;
   s1 ← lock nk (with_cur s g);
   Ok (with_score s1 (score s1 + (Piece.y g - Piece.y (cur s)) * 2))).
Proof.
  intros Hp Hgo. unfold hard_drop, ghost_piece. rewrite Hp, Hgo. cbn [orb].
  rewrite piece_eta, (ghost_loop_drop_loop _ s (cur s) 0).
  destruct (drop_loop (drop_fuel (cur s)) s (cur s) 0) as [[p dist]| |] eqn:Hloop;
    cbn [mbind result_bind]; try reflexivity.
  apply drop_loop_rows in Hloop as (_ & _ & _ & Hy & _). cbn [fst].
  replace (Piece.y p - Piece.y (cur s)) with dist by lia. reflexivity.
Qed.

Lemma hard_drop_at_ghost_witness :
  hard_drop KT four_rows_drop =
  (g ← ghost_piece four_rows_drop;
   s1 ← lock KT (with_cur four_rows_drop g);
   Ok (with_score s1 (score s1 + (Piece.y g - 0) * 2)))
  ∧ ghost_piece four_rows_drop = Ok (Piece.mk KI 1 3 16).
Proof.
  split; [|vm_compute; reflexivity].
  apply (hard_drop_at_ghost KT four_rows_drop); reflexivity.
Defined.

Lemma ghost_loop_stop (fuel : nat) (s : Tetris.t) (p g : Piece.t) :
  ghost_loop fuel s p = Ok g → valid s (Piece.moved g 0 1) = Ok false.
Proof.
  rewrite (ghost_loop_drop_loop fuel s p 0). intros Hg.
  apply bind_Ok in Hg as ([q d] & Hloop & Hg). injection Hg as <-.
  apply drop_loop_rows in Hloop. apply Hloop.
Qed.

(** X2: the ghost of the ghost is the ghost: with the current piece moved
    to its ghost position, [ghost_piece] returns that same piece. *)
Theorem ghost_idempotent (s : Tetris.t) (g : Piece.t) :
  ghost_piece s = Ok g → ghost_piece (with_cur s g) = Ok g.
Proof.
  unfold ghost_piece. rewrite !piece_eta. intros Hg.
  apply ghost_loop_stop in Hg. cbn [with_cur cur]. unfold drop_fuel.
  cbn [ghost_loop].
  replace (valid (with_cur s g) (Piece.moved g 0 1)) with (valid s (Piece.moved g 0 1))
    by reflexivity.
  rewrite Hg. reflexivity.
Qed.

Lemma ghost_idempotent_witness :
  ghost_piece four_rows_drop = Ok (Piece.mk KI 1 3 16)
  ∧ ghost_piece (with_cur four_rows_drop (Piece.mk KI 1 3 16)) = Ok (Piece.mk KI 1 3 16).
Proof.
  assert (Hg : ghost_piece four_rows_drop = Ok (Piece.mk KI 1 3 16))
    by (vm_compute; reflexivity).
  split; [exact Hg|]. apply (ghost_idempotent four_rows_drop _ Hg).
Defined.

(** X3: in a state that keeps the invariant, with the game running,
    [ghost_piece] returns: a valid placement of the same kind and rotation
    in the same column, at the row of the piece or below it, which cannot
    move one row further down. *)
Theorem ghost_rests (s : Tetris.t) :
  reachable s → game_over s = false →
  ∃ g, ghost_piece s = Ok g
       ∧ Piece.kind g = Piece.kind (cur s) ∧ Piece.rot g = Piece.rot (cur s)
       ∧ Piece.x g = Piece.x (cur s) ∧ Piece.y (cur s) ≤ Piece.y g
       ∧ valid s g = Ok true
       ∧ valid s (Piece.moved g 0 1) = Ok false.
Proof.
  intros Hr Hgo. pose proof (reachable_Inv s Hr) as HI.
  destruct (drop_loop_spec (drop_fuel (cur s)) s (cur s) 0 (inv_board s HI) (inv_cur s HI))
    as (d & Hloop & Hok & Hstop); [unfold drop_fuel; lia|].
  exists (Nat.iter d down (cur s)).
  assert (Hg : ghost_piece s = Ok (Nat.iter d down (cur s))).
  { unfold ghost_piece. rewrite piece_eta, (ghost_loop_drop_loop _ s (cur s) 0), Hloop.
    reflexivity. }
  split; [exact Hg|]. rewrite iter_down at 1 2 3 4. cbn [Piece.kind Piece.rot Piece.x Piece.y].
  split_and!; try reflexivity; [lia| |].
  - destruct d as [|d]; [apply (inv_valid s HI Hgo)|]. apply Hok. lia.
  - exact Hstop.
Qed.

Lemma ghost_rests_witness :
  ∃ g, ghost_piece (init KT KO []) = Ok g
       ∧ Piece.kind g = KT ∧ Piece.rot g = 0
       ∧ Piece.x g = 3 ∧ 0 ≤ Piece.y g
       ∧ valid (init KT KO []) g = Ok true
       ∧ valid (init KT KO []) (Piece.moved g 0 1) = Ok false.
Proof.
  apply (ghost_rests (init KT KO [])); [apply reach_init|reflexivity].
Defined.

(** ** The counters *)

Lemma scores_get_nonneg (n : Z) : 0 ≤ scores_get n.
Proof.
  unfold scores_get.
  destruct (n =? 1); [lia|]. destruct (n =? 2); [lia|].
  destruct (n =? 3); [lia|]. destruct (n =? 4); lia.
Qed.

Lemma clear_lines_counters (s s' : Tetris.t) :
  clear_lines s = Ok s' → counters_ok s →
  counters_ok s' ∧ score s ≤ score s' ∧ lines s ≤ lines s'.
Proof.
  unfold clear_lines, counters_ok. intros Hc (Hs & Hl & Hv & Hd).
  apply bind_Ok in Hc as (full & _ & Hc).
  destruct (Z.of_nat (length full) =? 0); [injection Hc as <-; lia|].
  apply bind_Ok in Hc as (b & _ & Hc). cbn in Hc.
  pose proof (scores_get_nonneg (Z.of_nat (length full))) as Hn.
  destruct (_ >? _) in Hc; injection Hc as <-; cbn; split_and!; try nia; reflexivity.
Qed.

Lemma lock_counters (nk : Kind) (s s' : Tetris.t) :
  lock nk s = Ok s' → counters_ok s →
  counters_ok s' ∧ score s ≤ score s' ∧ lines s ≤ lines s'.
Proof.
  unfold lock. intros Hl Hok. apply bind_Ok in Hl as (bs & _ & Hl).
  apply bind_Ok in Hl as ([b overflow] & _ & Hl). destruct overflow.
  - injection Hl as <-.
    destruct (persist_game_fields (with_game_over (with_board s b) true))
      as (_ & _ & _ & Hs & Hli & Hv & Hd & _).
    unfold counters_ok. rewrite Hs, Hli, Hv, Hd. cbn. unfold counters_ok in Hok. lia.
  - apply bind_Ok in Hl as (s1 & Hc & Hl).
    apply clear_lines_counters in Hc as (Hok1 & Hs1 & Hl1); [|exact Hok].
    cbn in Hs1, Hl1. apply bind_Ok in Hl as (v & _ & Hl).
    destruct v; cbn in Hl; injection Hl as <-.
    + split_and!; [exact Hok1|exact Hs1|exact Hl1].
    + match goal with |- context [persist_game ?x] =>
        destruct (persist_game_fields x) as (_ & _ & _ & Hs & Hli & Hv & Hd & _) end.
      unfold counters_ok. rewrite Hs, Hli, Hv, Hd. cbn.
      unfold counters_ok in Hok1. lia.
Qed.

Lemma move_counters (dx dy : Z) (nk : Kind) (s s' : Tetris.t) :
  move dx dy nk s = Ok s' → counters_ok s →
  counters_ok s' ∧ score s ≤ score s' ∧ lines s ≤ lines s'.
Proof.
  unfold move. intros Hm Hok.
  destruct (paused s || game_over s); [injection Hm as <-; split_and!; [exact Hok|lia|lia]|].
  apply bind_Ok in Hm as (v & _ & Hm). destruct v.
  - injection Hm as <-. split_and!; [exact Hok|cbn; lia|cbn; lia].
  - destruct (dy =? 1); [eapply lock_counters; eassumption|].
    injection Hm as <-. split_and!; [exact Hok|lia|lia].
Qed.

Lemma rotate_loop_counters (s s' : Tetris.t) (p : Piece.t) (ks : list Z) :
  rotate_loop s p ks = Ok s' →
  score s' = score s ∧ lines s' = lines s ∧ level s' = level s ∧ delay s' = delay s.
Proof.
  induction ks as [|k rest IH]; cbn [rotate_loop]; [intros [= <-]; auto|].
  intros Hr. apply bind_Ok in Hr as (v & _ & Hr). destruct v; [|auto].
  injection Hr as <-. auto.
Qed.

Lemma step_counters (c : Command) (nk : Kind) (s s' : Tetris.t) :
  step c nk s = Ok s' → counters_ok s →
  counters_ok s'
  ∧ (is_restart c = false → score s ≤ score s' ∧ lines s ≤ lines s').
Proof.
  intros Hstep Hok.
  assert (Hsame : counters_ok s ∧ (is_restart c = false → score s ≤ score s ∧ lines s ≤ lines s))
    by (split; [exact Hok|lia]).
  destruct c; cbn [step] in Hstep.
  - destruct (move_counters _ _ _ _ _ Hstep Hok) as (? & ? & ?). auto.
  - unfold soft_drop in Hstep. destruct (paused s || game_over s); [injection Hstep as <-; exact Hsame|].
    apply bind_Ok in Hstep as (s1 & Hm & Hstep). injection Hstep as <-.
    destruct (move_counters _ _ _ _ _ Hm Hok) as ((? & ? & ? & ?) & ? & ?).
    unfold counters_ok. cbn. split; [|intros _]; lia.
  - unfold hard_drop in Hstep. destruct (paused s || game_over s); [injection Hstep as <-; exact Hsame|].
    apply bind_Ok in Hstep as ([p dist] & Hloop & Hstep). apply drop_loop_dist in Hloop.
    apply bind_Ok in Hstep as (s1 & Hl & Hstep). injection Hstep as <-.
    destruct (lock_counters nk _ s1 Hl Hok) as ((? & ? & ? & ?) & Hs & Hli).
    cbn in Hs, Hli. unfold counters_ok. cbn. split; [|intros _]; lia.
  - unfold rotate in Hstep. destruct (paused s || game_over s); [injection Hstep as <-; exact Hsame|].
    apply rotate_loop_counters in Hstep as (Hs & Hl & Hv & Hd).
    unfold counters_ok in *. rewrite Hs, Hl, Hv, Hd. split; [exact Hok|lia].
  - injection Hstep as <-. unfold toggle_pause. destruct (game_over s); [exact Hsame|].
    split; [exact Hok|cbn; lia].
  - injection Hstep as <-. split; [|discriminate].
    unfold counters_ok. cbn. unfold START_DELAY, LEVEL_STEP. lia.
  - unfold tick in Hstep. destruct (negb (paused s) && negb (game_over s));
      [|injection Hstep as <-; exact Hsame].
    destruct (move_counters _ _ _ _ _ Hstep Hok) as (? & ? & ?). auto.
  - injection Hstep as <-. unfold change_player. destruct (name_set name); [|exact Hsame].
    split; [exact Hok|cbn; lia].
Qed.

Lemma reachable_counters (s : Tetris.t) : reachable s → counters_ok s.
Proof.
  induction 1 as [k1 k2 stored|s c nk s' _ IH Hstep].
  - unfold counters_ok. cbn. unfold START_DELAY, LEVEL_STEP. lia.
  - eapply step_counters; eassumption.
Qed.

(** X4: in every reachable state the score and the lines are not negative,
    the level is at least 1, and the delay of the timer is the one of the
    level, [max(80, 500 - 40 * (level - 1))]: between 80 and 500
    milliseconds, and 80 from level 12 on. *)
Theorem reachable_delay (s : Tetris.t) :
  reachable s →
  0 ≤ score s ∧ 0 ≤ lines s ∧ 1 ≤ level s
  ∧ delay s = Z.max 80 (500 - 40 * (level s - 1))
  ∧ 80 ≤ delay s ≤ 500
  ∧ (12 ≤ level s → delay s = 80).
Proof.
  intros Hr. destruct (reachable_counters s Hr) as (Hs & Hl & Hv & Hd).
  unfold START_DELAY, LEVEL_STEP in Hd. split_and!; try assumption; lia.
Qed.

Lemma run_reachable (cs : list (Command * Kind)) (s s' : Tetris.t) :
  reachable s → run cs s = Ok s' → reachable s'.
Proof.
  revert s. induction cs as [|[c nk] rest IH]; intros s Hr Hrun.
  - injection Hrun as <-. exact Hr.
  - cbn [run] in Hrun. apply bind_Ok in Hrun as (s1 & Hs & Hrun).
    eapply IH; [|exact Hrun]. eapply reach_step; eassumption.
Qed.

Lemma reachable_delay_witness :
  ∃ s, run ten_drops (init KI KO []) = Ok s
       ∧ 0 ≤ score s ∧ 0 ≤ lines s ∧ 1 ≤ level s
       ∧ delay s = Z.max 80 (500 - 40 * (level s - 1))
       ∧ 80 ≤ delay s ≤ 500
       ∧ (12 ≤ level s → delay s = 80).
Proof.
  destruct (run ten_drops (init KI KO [])) as [s| |] eqn:Hrun;
    [|vm_compute in Hrun; discriminate|vm_compute in Hrun; discriminate].
  exists s. split; [reflexivity|].
  apply (reachable_delay s).
  apply (run_reachable ten_drops (init KI KO []) s (reach_init KI KO [])), Hrun.
Defined.

(** X5: from a reachable state, over any run of events without a restart,
    the score, the lines and the level never decrease. *)
Theorem run_counters_grow (cs : list (Command * Kind)) (s s' : Tetris.t) :
  reachable s → Forall (λ c, is_restart c.1 = false) cs → run cs s = Ok s' →
  score s ≤ score s' ∧ lines s ≤ lines s' ∧ level s ≤ level s'.
Proof.
  intros Hr Hall. revert s Hr. induction Hall as [|[c nk] rest Hc _ IH]; intros s Hr Hrun.
  - injection Hrun as <-. lia.
  - cbn [run] in Hrun. apply bind_Ok in Hrun as (s1 & Hs & Hrun).
    destruct (step_counters c nk s s1 Hs (reachable_counters s Hr)) as [_ Hgrow].
    destruct (Hgrow Hc) as [Hsc Hli].
    pose proof (step_level c nk s s1 Hc Hs) as Hlv.
    destruct (IH s1 (reach_step s c nk s1 Hr Hs) Hrun) as (? & ? & ?). lia.
Qed.

Lemma run_counters_grow_witness :
  ∃ s', run ten_drops (init KI KO []) = Ok s'
        ∧ 0 ≤ score s' ∧ 0 ≤ lines s' ∧ 1 ≤ level s'.
Proof.
  destruct (run ten_drops (init KI KO [])) as [s'| |] eqn:Hrun;
    [|vm_compute in Hrun; discriminate|vm_compute in Hrun; discriminate].
  exists s'. split; [reflexivity|].
  apply (run_counters_grow ten_drops (init KI KO []) s' (reach_init KI KO [])).
  - unfold ten_drops. constructor; [reflexivity|].
    apply Forall_replicate. reflexivity.
  - exact Hrun.
Defined.

(** ** The cells [lock] writes *)

Lemma cell_at_set (b : Board) (row : list Cell) (x y i j : nat) (v : Cell) :
  b !! y = Some row → (x < length row)%nat →
  cell_at (<[y := <[x := v]> row]> b) i j
  = if decide (i = y ∧ j = x) then Some v else cell_at b i j.
Proof.
  intros Hrow Hx. unfold cell_at.
  pose proof (lookup_lt_Some _ _ _ Hrow) as Hy.
  destruct (decide (i = y)) as [->|Hi].
  - rewrite list_lookup_insert_eq by exact Hy. cbn. rewrite Hrow. cbn.
    destruct (decide (j = x)) as [->|Hj].
    + rewrite list_lookup_insert_eq by exact Hx.
      destruct (decide (y = y ∧ x = x)) as [_|Hn]; [reflexivity|tauto].
    + rewrite list_lookup_insert_ne by congruence.
      destruct (decide (y = y ∧ j = x)) as [[_ Hn]|_]; [contradiction|reflexivity].
  - rewrite list_lookup_insert_ne by congruence.
    destruct (decide (i = y ∧ j = x)) as [[Hn _]|_]; [contradiction|reflexivity].
Qed.

(** X6: [lock] writes the colour into the four cells of a piece that lies
    inside the board, and into no other cell: the board it hands to
    [clear_lines] has the colour at every cell of the piece and the old
    content everywhere else. *)
Theorem lock_loop_cells (color : string) (p : Piece.t) (bs : list (Z * Z)) (b : Board) :
  wf_board b → Forall (in_board p) bs →
  ∃ b', lock_loop color p bs b = Ok (b', false)
        ∧ wf_board b'
        ∧ ∀ i j : nat,
            cell_at b' i j
            = if decide ((Z.of_nat j - Piece.x p, Z.of_nat i - Piece.y p) ∈ bs)
              then Some (Some color) else cell_at b i j.
Proof.
  intros Hb Hall. revert b Hb.
  induction Hall as [|[bx by_] rest [Hx Hy] Hrest IH]; intros b Hb.
  - exists b. split_and!; [reflexivity|exact Hb|]. intros i j.
    destruct (decide (_ ∈ [])) as [Hin|_]; [|reflexivity].
    apply elem_of_nil in Hin. contradiction.
  - cbn [lock_loop]. cbn [fst snd] in Hx, Hy.
    destruct (Z.ltb_spec (Piece.y p + by_) 0); [lia|].
    destruct (wf_board_row b (Piece.y p + by_) Hb Hy) as (row & Hl & Hg & Hlen).
    rewrite Hg. cbn [mbind result_bind]. rewrite setitem_in_range by lia.
    cbn [mbind result_bind]. pose proof Hb as [Hblen _].
    rewrite setitem_in_range by lia. cbn [mbind result_bind].
    destruct (IH _ (wf_board_setcell b row (Z.to_nat (Piece.x p + bx))
                      (Z.to_nat (Piece.y p + by_)) (Some color) Hb Hl))
      as (b' & Hloop & Hb' & Hcells).
    exists b'. split_and!; [exact Hloop|exact Hb'|]. intros i j.
    rewrite Hcells, cell_at_set by (exact Hl || lia).
    destruct (decide ((Z.of_nat j - Piece.x p, Z.of_nat i - Piece.y p) ∈ rest)) as [Hin|Hnin].
    + rewrite decide_True; [reflexivity|]. apply elem_of_cons. auto.
    + destruct (decide (i = Z.to_nat (Piece.y p + by_) ∧ j = Z.to_nat (Piece.x p + bx)))
        as [[-> ->]|Hne].
      * rewrite decide_True; [reflexivity|]. apply elem_of_cons. left.
        f_equal; lia.
      * rewrite decide_False; [reflexivity|]. rewrite elem_of_cons.
        intros [Heq|Hin]; [|contradiction]. injection Heq as Hj Hi.
        apply Hne. split; lia.
Qed.

Lemma lock_loop_cells_witness :
  ∃ b', lock_loop (COLORS KO) (Piece.mk KO 0 3 18) [(1, 0); (2, 0); (1, 1); (2, 1)]
                  (board two_rows_state) = Ok (b', false)
        ∧ wf_board b'
        ∧ ∀ i j : nat,
            cell_at b' i j
            = if decide ((Z.of_nat j - 3, Z.of_nat i - 18) ∈ [(1, 0); (2, 0); (1, 1); (2, 1)])
              then Some (Some (COLORS KO)) else cell_at (board two_rows_state) i j.
Proof.
  apply (lock_loop_cells (COLORS KO) (Piece.mk KO 0 3 18) [(1, 0); (2, 0); (1, 1); (2, 1)]
           (board two_rows_state)).
  - wf_board_all.
  - in_board_all.
Defined.

(** ** The colours on the board *)

Lemma setitem_insert {A} (l l' : list A) (i : Z) (v : A) :
  Py.setitem l i v = Ok l' → ∃ k, l' = <[k := v]> l.
Proof.
  unfold Py.setitem. intros Hs. apply bind_Ok in Hs as (k & _ & Hs).
  injection Hs as <-. eauto.
Qed.

Lemma getitem_elem {A} (l : list A) (i : Z) (a : A) :
  Py.getitem l i = Ok a → a ∈ l.
Proof.
  unfold Py.getitem. intros Hg. apply bind_Ok in Hg as (k & _ & Hg).
  destruct (l !! k) as [a'|] eqn:Hk; [|discriminate]. injection Hg as <-.
  eapply list_elem_of_lookup_2, Hk.
Qed.

Lemma lock_loop_colored (k : Kind) (p : Piece.t) (bs : list (Z * Z)) (b b' : Board)
    (o : bool) :
  colored b → lock_loop (COLORS k) p bs b = Ok (b', o) → colored b'.
Proof.
  revert b. induction bs as [|[bx by_] rest IH]; intros b Hc; cbn [lock_loop].
  - intros [= <- _]. exact Hc.
  - destruct (Piece.y p + by_ <? 0); [intros [= <- _]; exact Hc|].
    intros Hl. apply bind_Ok in Hl as (row & Hrow & Hl).
    apply bind_Ok in Hl as (row' & Hrow' & Hl).
    apply bind_Ok in Hl as (b1 & Hb1 & Hl).
    apply setitem_insert in Hrow' as [kx ->]. apply setitem_insert in Hb1 as [ky ->].
    refine (IH _ _ Hl). unfold colored.
    apply Forall_insert; [exact Hc|]. apply Forall_insert; [|eauto].
    unfold colored in Hc. rewrite Forall_forall in Hc. apply Hc.
    eapply getitem_elem, Hrow.
Qed.

Lemma empty_row_colored :
  Forall (λ c : Cell, c = None ∨ ∃ k, c = Some (COLORS k)) empty_row.
Proof. apply Forall_replicate. auto. Qed.

Lemma remove_rows_colored (b b' : Board) (rfull : list Z) :
  colored b → remove_rows b rfull = Ok b' → colored b'.
Proof.
  revert b. induction rfull as [|i rest IH]; intros b Hc; cbn [remove_rows].
  - intros [= <-]. exact Hc.
  - intros Hr. apply bind_Ok in Hr as (b1 & Hd & Hr).
    unfold Py.delitem in Hd. apply bind_Ok in Hd as (k & _ & Hd). injection Hd as <-.
    refine (IH _ _ Hr). constructor; [exact empty_row_colored|].
    apply Forall_delete, Hc.
Qed.

Lemma clear_lines_colored (s s' : Tetris.t) :
  colored (board s) → clear_lines s = Ok s' → colored (board s').
Proof.
  unfold clear_lines. intros Hc Hcl. apply bind_Ok in Hcl as (full & _ & Hcl).
  destruct (Z.of_nat (length full) =? 0); [injection Hcl as <-; exact Hc|].
  apply bind_Ok in Hcl as (b & Hb & Hcl). cbn in Hcl.
  apply remove_rows_colored in Hb; [|exact Hc].
  destruct (_ >? _) in Hcl; injection Hcl as <-; exact Hb.
Qed.

Lemma lock_colored (nk : Kind) (s s' : Tetris.t) :
  colored (board s) → lock nk s = Ok s' → colored (board s').
Proof.
  unfold lock. intros Hc Hl. apply bind_Ok in Hl as (bs & _ & Hl).
  apply bind_Ok in Hl as ([b overflow] & Hloop & Hl).
  apply lock_loop_colored in Hloop; [|exact Hc]. destruct overflow.
  - injection Hl as <-.
    destruct (persist_game_fields (with_game_over (with_board s b) true)) as (-> & _).
    exact Hloop.
  - apply bind_Ok in Hl as (s1 & Hcl & Hl).
    apply clear_lines_colored in Hcl; [|exact Hloop].
    apply bind_Ok in Hl as (v & _ & Hl). destruct v; cbn in Hl; injection Hl as <-.
    + exact Hcl.
    + match goal with |- context [persist_game ?x] =>
        destruct (persist_game_fields x) as (-> & _) end.
      exact Hcl.
Qed.

Lemma move_colored (dx dy : Z) (nk : Kind) (s s' : Tetris.t) :
  colored (board s) → move dx dy nk s = Ok s' → colored (board s').
Proof.
  unfold move. intros Hc Hm.
  destruct (paused s || game_over s); [injection Hm as <-; exact Hc|].
  apply bind_Ok in Hm as (v & _ & Hm). destruct v; [injection Hm as <-; exact Hc|].
  destruct (dy =? 1); [eapply lock_colored; eassumption|injection Hm as <-; exact Hc].
Qed.

Lemma rotate_loop_board (s s' : Tetris.t) (p : Piece.t) (ks : list Z) :
  rotate_loop s p ks = Ok s' → board s' = board s.
Proof.
  induction ks as [|k rest IH]; cbn [rotate_loop]; [intros [= <-]; reflexivity|].
  intros Hr. apply bind_Ok in Hr as (v & _ & Hr). destruct v; [|auto].
  injection Hr as <-. reflexivity.
Qed.

Lemma step_colored (c : Command) (nk : Kind) (s s' : Tetris.t) :
  colored (board s) → step c nk s = Ok s' → colored (board s').
Proof.
  intros Hc Hstep. destruct c; cbn [step] in Hstep.
  - eapply move_colored; eassumption.
  - unfold soft_drop in Hstep. destruct (paused s || game_over s); [injection Hstep as <-; exact Hc|].
    apply bind_Ok in Hstep as (s1 & Hm & Hstep). injection Hstep as <-.
    exact (move_colored _ _ _ _ _ Hc Hm).
  - unfold hard_drop in Hstep. destruct (paused s || game_over s); [injection Hstep as <-; exact Hc|].
    apply bind_Ok in Hstep as ([p dist] & _ & Hstep).
    apply bind_Ok in Hstep as (s1 & Hl & Hstep). injection Hstep as <-.
    exact (lock_colored nk (with_cur s p) s1 Hc Hl).
  - unfold rotate in Hstep. destruct (paused s || game_over s); [injection Hstep as <-; exact Hc|].
    apply rotate_loop_board in Hstep. rewrite Hstep. exact Hc.
  - injection Hstep as <-. unfold toggle_pause. destruct (game_over s); exact Hc.
  - injection Hstep as <-. apply Forall_replicate, empty_row_colored.
  - unfold tick in Hstep. destruct (negb (paused s) && negb (game_over s));
      [eapply move_colored; eassumption|injection Hstep as <-; exact Hc].
  - injection Hstep as <-. unfold change_player. destruct (name_set name); exact Hc.
Qed.

Lemma reachable_colored (s : Tetris.t) : reachable s → colored (board s).
Proof.
  induction 1 as [k1 k2 stored|s c nk s' _ IH Hstep].
  - apply Forall_replicate, empty_row_colored.
  - eapply step_colored; eassumption.
Qed.

Lemma COLORS_truthy (k : Kind) : truthy (Some (COLORS k)) = true.
Proof. destruct k; reflexivity. Qed.

Lemma COLORS_not_ghost (k : Kind) : COLORS k ≠ GHOST_COLOR.
Proof. destruct k; discriminate. Qed.

(** X7: in every reachable state each cell of the board is empty or holds
    the colour of one of the seven kinds.  So a cell counts as taken
    exactly when it is not [None], and no cell holds the colour of the
    ghost outline. *)
Theorem reachable_cells (s : Tetris.t) (i j : nat) (c : Cell) :
  reachable s → cell_at (board s) i j = Some c →
  (c = None ∨ ∃ k, c = Some (COLORS k))
  ∧ (truthy c = true ↔ c ≠ None)
  ∧ c ≠ Some GHOST_COLOR.
Proof.
  intros Hr Hcell. pose proof (reachable_colored s Hr) as Hcol.
  unfold cell_at in Hcell. destruct (board s !! i) as [row|] eqn:Hrow; [|discriminate].
  cbn in Hcell. unfold colored in Hcol. rewrite Forall_forall in Hcol.
  specialize (Hcol row (list_elem_of_lookup_2 _ _ _ Hrow)).
  rewrite Forall_forall in Hcol.
  specialize (Hcol c (list_elem_of_lookup_2 _ _ _ Hcell)).
  split; [exact Hcol|]. destruct Hcol as [->|[k ->]].
  - split; [split; [discriminate|congruence]|discriminate].
  - split; [split; [discriminate|intros _; apply COLORS_truthy]|].
    intros [= Hk]. exact (COLORS_not_ghost k Hk).
Qed.

Lemma reachable_cells_witness :
  ∃ s, run [(HardDrop, KO)] (init KI KO []) = Ok s
       ∧ cell_at (board s) 19 3 = Some (Some (COLORS KI))
       ∧ ((Some (COLORS KI) : Cell) = None ∨ ∃ k, Some (COLORS KI) = Some (COLORS k))
       ∧ (truthy (Some (COLORS KI)) = true ↔ (Some (COLORS KI) : Cell) ≠ None)
       ∧ (Some (COLORS KI) : Cell) ≠ Some GHOST_COLOR.
Proof.
  destruct (run [(HardDrop, KO)] (init KI KO [])) as [s| |] eqn:Hrun;
    [|vm_compute in Hrun; discriminate|vm_compute in Hrun; discriminate].
  assert (Hcell : cell_at (board s) 19 3 = Some (Some (COLORS KI))).
  { pose proof Hrun as Hrun'. vm_compute in Hrun'. injection Hrun' as <-.
    vm_compute. reflexivity. }
  exists s. split; [reflexivity|]. split; [exact Hcell|].
  apply (reachable_cells s 19 3 (Some (COLORS KI))); [|exact Hcell].
  apply (run_reachable [(HardDrop, KO)] (init KI KO []) s (reach_init KI KO [])), Hrun.
Defined.

(** ** Runs without exceptions *)

Lemma run_total_Inv (cs : list (Command * Kind)) (s : Tetris.t) :
  Inv s → ∃ s', run cs s = Ok s' ∧ Inv s'.
Proof.
  revert s. induction cs as [|[c nk] rest IH]; intros s HI; [exists s; auto|].
  cbn [run]. destruct (step_total c nk s HI) as [s1 Hs]. rewrite Hs.
  cbn [mbind result_bind]. apply IH. eapply step_Inv; eassumption.
Qed.

(** X8: from a reachable state every run of events returns a state: no
    access to the board or to the shape table raises [IndexError], and the
    loops of [hard_drop] end. *)
Theorem reachable_run_total (cs : list (Command * Kind)) (s : Tetris.t) :
  reachable s → ∃ s', run cs s = Ok s' ∧ reachable s'.
Proof.
  intros Hr. destruct (run_total_Inv cs s (reachable_Inv s Hr)) as (s' & Hrun & _).
  exists s'. split; [exact Hrun|]. eapply run_reachable; eassumption.
Qed.

Lemma reachable_run_total_witness :
  ∃ s', run ten_drops (init KI KO []) = Ok s' ∧ reachable s'.
Proof. apply (reachable_run_total ten_drops (init KI KO [])). apply reach_init. Defined.

(** X9: in every reachable state the board has [ROWS] rows of [COLS]
    cells, the current piece has four blocks, all inside the board, and
    while the game is not over none of them lies on a taken cell. *)
Theorem reachable_piece_free (s : Tetris.t) :
  reachable s →
  wf_board (board s)
  ∧ ∃ bs, Piece.blocks (cur s) = Ok bs
          ∧ length bs = 4%nat
          ∧ Forall (in_board (cur s)) bs
          ∧ (game_over s = false →
             Forall (λ blk, occupied (board s) (Piece.x (cur s) + blk.1)
                                     (Piece.y (cur s) + blk.2) = false) bs).
Proof.
  intros Hr. pose proof (reachable_Inv s Hr) as HI. split; [apply HI|].
  destruct (blocks_wf (cur s) (inv_cur s HI)) as [bs Hbs]. exists bs.
  split_and!; [exact Hbs| |apply (inv_in_board s HI), Hbs|].
  - pose proof (blocks_shape _ _ Hbs) as Hok. unfold shape_ok in Hok.
    destruct bs as [|[bx0 by0] rest]; [discriminate|].
    rewrite !andb_true_iff in Hok. destruct Hok as [[Hlen _] _].
    apply Nat.eqb_eq in Hlen. exact Hlen.
  - intros Hgo. pose proof (inv_valid s HI Hgo) as Hv.
    rewrite (valid_true_blocks s (cur s) bs (inv_board s HI) Hbs) in Hv.
    apply Forall_forall. intros blk Hin. apply Hv, Hin.
Qed.

Lemma reachable_piece_free_witness :
  ∃ s, run (take 10 ten_drops) (init KI KO []) = Ok s
       ∧ wf_board (board s)
       ∧ ∃ bs, Piece.blocks (cur s) = Ok bs
               ∧ length bs = 4%nat
               ∧ Forall (in_board (cur s)) bs
               ∧ (game_over s = false →
                  Forall (λ blk, occupied (board s) (Piece.x (cur s) + blk.1)
                                          (Piece.y (cur s) + blk.2) = false) bs).
Proof.
  destruct (run (take 10 ten_drops) (init KI KO [])) as [s| |] eqn:Hrun;
    [|vm_compute in Hrun; discriminate|vm_compute in Hrun; discriminate].
  exists s. split; [reflexivity|]. apply (reachable_piece_free s).
  apply (run_reachable (take 10 ten_drops) (init KI KO []) s (reach_init KI KO [])), Hrun.
Defined.

(** ** Termination of the drop loops *)

Lemma drop_loop_more_fuel (fuel k : nat) (s : Tetris.t) (p : Piece.t) (dist : Z) :
  drop_loop fuel s p dist ≠ OutOfFuel →
  drop_loop (fuel + k) s p dist = drop_loop fuel s p dist.
Proof.
  revert p dist. induction fuel as [|fuel IH]; intros p dist; [cbn; congruence|].
  cbn [drop_loop Nat.add].
  destruct (valid s (Piece.moved p 0 1)) as [v| |]; cbn [mbind result_bind];
    try reflexivity.
  destruct v; [apply IH|reflexivity].
Qed.

(** X10: the [while True] loop of [hard_drop] and the [while] loop of
    [ghost_piece] end on every board and from every piece, within
    [ROWS - y + 1] iterations; more iterations allowed change nothing. *)
Theorem drop_loops_end (s : Tetris.t) (p : Piece.t) (dist : Z) (k : nat) :
  drop_loop (drop_fuel p) s p dist ≠ OutOfFuel
  ∧ ghost_loop (drop_fuel p) s p ≠ OutOfFuel
  ∧ drop_loop (drop_fuel p + k) s p dist = drop_loop (drop_fuel p) s p dist
  ∧ ghost_loop (drop_fuel p + k) s p = ghost_loop (drop_fuel p) s p.
Proof.
  assert (Hd : ∀ d, drop_loop (drop_fuel p) s p d ≠ OutOfFuel).
  { intros d. apply drop_loop_fuel. unfold drop_fuel. lia. }
  split_and!.
  - apply Hd.
  - rewrite (ghost_loop_drop_loop _ s p 0). specialize (Hd 0).
    destruct (drop_loop (drop_fuel p) s p 0); cbn; congruence.
  - apply drop_loop_more_fuel, Hd.
  - rewrite !(ghost_loop_drop_loop _ s p 0), drop_loop_more_fuel by apply Hd.
    reflexivity.
Qed.

(** ** Sessions *)

(** X11: over a run of game commands from a running game, the [Game] table
    stays as it is while the game runs, and a game that ends has added
    one row at most: the row of its player, with the lines and the level
    the game ends with, and no row when no player name is set. *)
Theorem session_stores_once (cs : list (Command * Kind)) (s s' : Tetris.t) :
  game_over s = false → Forall (λ c, is_play c.1 = true) cs → run cs s = Ok s' →
  (game_over s' = false ∧ games s' = games s)
  ∨ (game_over s' = true
     ∧ ∃ sc, games s' = games s ++ stored_row s' sc
             ∧ (name_set (player_name s') = false → games s' = games s)).
Proof.
  intros Hgo Hall. revert s Hgo.
  induction Hall as [|[c nk] rest Hc Hrest IH]; intros s Hgo Hrun.
  - injection Hrun as <-. auto.
  - cbn [run] in Hrun. apply bind_Ok in Hrun as (s1 & Hs & Hrun).
    destruct (step_games c nk s s1 Hs) as [[Hg Hrunning]|(_ & Hover & sc & Hg & _)].
    + specialize (Hrunning Hgo). rewrite <- Hg. apply IH; assumption.
    + rewrite (run_game_over rest s1 Hover Hrest) in Hrun. injection Hrun as <-.
      right. split; [exact Hover|]. exists sc. split; [exact Hg|].
      intros Hname. rewrite Hg. unfold stored_row, name_set in *.
      destruct (player_name s1) as [v|]; [rewrite Hname|]; apply app_nil_r.
Qed.

Lemma session_stores_once_witness :
  ∃ s', run (tail ten_drops) (change_player (Some "ann") (init KI KO [])) = Ok s'
        ∧ ((game_over s' = false ∧ games s' = [])
           ∨ (game_over s' = true
              ∧ ∃ sc, games s' = [] ++ stored_row s' sc
                      ∧ (name_set (player_name s') = false → games s' = []))).
Proof.
  destruct (run (tail ten_drops) (change_player (Some "ann") (init KI KO [])))
    as [s'| |] eqn:Hrun;
    [|vm_compute in Hrun; discriminate|vm_compute in Hrun; discriminate].
  exists s'. split; [reflexivity|].
  apply (session_stores_once (tail ten_drops)
           (change_player (Some "ann") (init KI KO [])) s').
  - reflexivity.
  - apply Forall_replicate. reflexivity.
  - exact Hrun.
Defined.

Lemma run_paused (cs : list (Command * Kind)) (s : Tetris.t) :
  paused s = true → Forall (λ c, ignored_when_paused c.1 = true) cs → run cs s = Ok s.
Proof.
  intros Hp. induction 1 as [|[c nk] rest Hc _ IH]; [reflexivity|].
  cbn [run]. replace (step c nk s) with (Ok s); [exact IH|].
  destruct c; try discriminate; cbn [step];
    unfold move, soft_drop, hard_drop, rotate, tick; rewrite Hp; reflexivity.
Qed.

(** X12: pausing a running game, then any moves, rotations, drops and timer
    ticks, then the pause key again gives back the state before the pause,
    every field of it. *)
Theorem pause_round_trip (cs : list (Command * Kind)) (k1 k2 : Kind) (s : Tetris.t) :
  paused s = false → game_over s = false →
  Forall (λ c, ignored_when_paused c.1 = true) cs →
  run ((TogglePause, k1) :: cs ++ [(TogglePause, k2)]) s = Ok s.
Proof.
  intros Hp Hgo Hall.
  assert (Hrun : ∀ cs1 cs2 s0 s1, run cs1 s0 = Ok s1 → run (cs1 ++ cs2) s0 = run cs2 s1).
  { induction cs1 as [|[c nk] cs1 IH]; intros cs2 s0 s1; cbn [run app].
    - intros [= <-]. reflexivity.
    - intros Hr. apply bind_Ok in Hr as (s2 & Hs & Hr). rewrite Hs.
      cbn [mbind result_bind]. apply IH, Hr. }
  cbn [run step]. cbn [mbind result_bind].
  rewrite (Hrun cs _ _ (toggle_pause s)).
  - cbn [run step mbind result_bind]. unfold toggle_pause. rewrite Hgo. cbn.
    rewrite Hgo, Hp. destruct s; cbn in *; subst; reflexivity.
  - apply run_paused; [|exact Hall]. unfold toggle_pause. rewrite Hgo, Hp. reflexivity.
Qed.

Lemma pause_round_trip_witness :
  run ((TogglePause, KO) :: [(Move (-1) 0, KO); (HardDrop, KT); (Tick, KS); (Rotate, KO)]
       ++ [(TogglePause, KO)]) four_rows_drop = Ok four_rows_drop.
Proof.
  apply (pause_round_trip [(Move (-1) 0, KO); (HardDrop, KT); (Tick, KS); (Rotate, KO)]
           KO KO four_rows_drop); [reflexivity|reflexivity|].
  repeat (constructor; [reflexivity|]). constructor.
Defined.


(** ** class Piece *)

(** X14: [rotated] keeps the rotation index inside the states of the kind
    and leaves the kind and the position alone; four rotations in a row,
    and as many rotations as the kind has states, give back the piece. *)
Theorem rotated_cycle (p : Piece.t) :
  wf_piece p →
  wf_piece (Piece.rotated p)
  ∧ Piece.kind (Piece.rotated p) = Piece.kind p
  ∧ Piece.x (Piece.rotated p) = Piece.x p ∧ Piece.y (Piece.rotated p) = Piece.y p
  ∧ Nat.iter 4 Piece.rotated p = p
  ∧ Nat.iter (length (SHAPES (Piece.kind p))) Piece.rotated p = p.
Proof.
  intros Hp. split; [apply rotated_wf|]. split_and!; try reflexivity.
  - destruct p as [k r x y]. unfold wf_piece in Hp. cbn in Hp.
    destruct k; cbn in Hp;
      (assert (Hr : r = 0 ∨ r = 1 ∨ r = 2 ∨ r = 3) by lia;
       destruct Hr as [-> | [-> | [-> | ->]]]; try lia; reflexivity).
  - destruct p as [k r x y]. unfold wf_piece in Hp. cbn in Hp.
    destruct k; cbn in Hp;
      (assert (Hr : r = 0 ∨ r = 1 ∨ r = 2 ∨ r = 3) by lia;
       destruct Hr as [-> | [-> | [-> | ->]]]; try lia; reflexivity).
Qed.

Lemma rotated_cycle_witness :
  wf_piece (Piece.rotated (Piece.mk KS 1 4 7))
  ∧ Piece.kind (Piece.rotated (Piece.mk KS 1 4 7)) = KS
  ∧ Piece.x (Piece.rotated (Piece.mk KS 1 4 7)) = 4
  ∧ Piece.y (Piece.rotated (Piece.mk KS 1 4 7)) = 7
  ∧ Nat.iter 4 Piece.rotated (Piece.mk KS 1 4 7) = Piece.mk KS 1 4 7
  ∧ Nat.iter 2 Piece.rotated (Piece.mk KS 1 4 7) = Piece.mk KS 1 4 7.
Proof.
  apply (rotated_cycle (Piece.mk KS 1 4 7)). unfold wf_piece. cbn. lia.
Defined.

(** ** Full rows *)

Lemma full_rows_subset (b : Board) (rows full : list Z) :
  full_rows b rows = Ok full → ∀ i, i ∈ full → i ∈ rows.
Proof.
  revert full. induction rows as [|j rest IH]; intros full; cbn [full_rows].
  - intros [= <-] i Hi. exact Hi.
  - intros Hf. apply bind_Ok in Hf as (row & _ & Hf).
    apply bind_Ok in Hf as (f & _ & Hf). apply bind_Ok in Hf as (more & Hmore & Hf).
    injection Hf as <-. intros i Hi. rewrite elem_of_cons.
    destruct f; [apply elem_of_cons in Hi as [->|Hi]; [auto|]|]; right; eapply IH; eauto.
Qed.

Lemma full_rows_sorted (b : Board) (rows full : list Z) :
  StronglySorted Z.lt rows → full_rows b rows = Ok full → StronglySorted Z.lt full.
Proof.
  intros Hs. revert full. induction Hs as [|j rest Hs IH Hj]; intros full; cbn [full_rows].
  - intros [= <-]. constructor.
  - intros Hf. apply bind_Ok in Hf as (row & _ & Hf).
    apply bind_Ok in Hf as (f & _ & Hf). apply bind_Ok in Hf as (more & Hmore & Hf).
    injection Hf as <-. destruct f; [|auto]. constructor; [auto|].
    apply Forall_forall. intros i Hi. rewrite Forall_forall in Hj.
    apply Hj. eapply full_rows_subset; eassumption.
Qed.

Lemma range_sorted (n : Z) : StronglySorted Z.lt (Py.range n).
Proof.
  unfold Py.range. apply (StronglySorted_fmap _ lt); [intros x y; lia|].
  generalize 0%nat. induction (Z.to_nat n) as [|m IH]; intros k; cbn [seq]; constructor.
  - apply IH.
  - apply Forall_forall. intros i Hi. apply elem_of_seq in Hi. lia.
Qed.

Lemma forallb_truthy (row : list Cell) :
  forallb truthy row = true ↔ Forall (λ c, truthy c = true) row.
Proof.
  rewrite forallb_forall, Forall_forall. split; intros Hr c Hc; apply Hr;
    apply list_elem_of_In; exact Hc.
Qed.

(** X15: on a board of [ROWS] by [COLS] cells the list [clear_lines]
    computes holds exactly the indices of the rows with every column
    taken, each once and in ascending order. *)
Theorem full_rows_found (b : Board) :
  wf_board b →
  ∃ full,
    full_rows b (Py.range ROWS) = Ok full
    ∧ (∀ i, i ∈ full ↔
            0 ≤ i < ROWS
            ∧ ∃ row, b !! Z.to_nat i = Some row ∧ Forall (λ c, truthy c = true) row)
    ∧ StronglySorted Z.lt full.
Proof.
  intros Hb.
  destruct (full_rows_total b (Py.range ROWS) Hb (range_Forall ROWS)) as (full & Hfull & _).
  exists full. split_and!; [exact Hfull| |].
  - intros i. rewrite (full_rows_elem b _ full Hb (range_Forall ROWS) Hfull i).
    rewrite elem_of_range. split; intros [Hi (row & Hrow & Hall)]; (split; [exact Hi|]);
      exists row; (split; [exact Hrow|]); apply forallb_truthy, Hall.
  - eapply full_rows_sorted; [apply range_sorted|exact Hfull].
Qed.

Lemma full_rows_found_witness :
  ∃ full,
    full_rows (board ninth_line_state) (Py.range ROWS) = Ok full
    ∧ (∀ i, i ∈ full ↔
            0 ≤ i < ROWS
            ∧ ∃ row, board ninth_line_state !! Z.to_nat i = Some row
                     ∧ Forall (λ c, truthy c = true) row)
    ∧ StronglySorted Z.lt full.
Proof. apply (full_rows_found (board ninth_line_state)). wf_board_all. Defined.

Lemma empty_row_not_full : forallb truthy empty_row = false.
Proof. reflexivity. Qed.

(** X16: when exactly one row [i] is full, [clear_lines] removes it as the
    scenario of the game has it: the new row 0 is empty, the rows above
    [i] move down by one, the rows below [i] stay, no full row is left,
    [lines] grows by 1 and the score by 100 times the level. *)
Theorem clear_one_row_shifts (s : Tetris.t) (i : Z) :
  wf_board (board s) → full_rows (board s) (Py.range ROWS) = Ok [i] →
  ∃ s', clear_lines s = Ok s'
        ∧ 0 ≤ i < ROWS
        ∧ board s' !! 0%nat = Some empty_row
        ∧ (∀ j, (j < Z.to_nat i)%nat → board s' !! S j = board s !! j)
        ∧ (∀ j, (Z.to_nat i < j)%nat → board s' !! j = board s !! j)
        ∧ full_rows (board s') (Py.range ROWS) = Ok []
        ∧ lines s' = lines s + 1
        ∧ score s' = score s + 100 * level s.
Proof.
  intros Hb Hfull.
  assert (Hi : 0 ≤ i < ROWS).
  { apply elem_of_range. eapply full_rows_subset; [exact Hfull|apply list_elem_of_here]. }
  destruct (clear_lines_single s i Hb Hfull) as (s' & Hclear & Hboard).
  destruct (clear_lines_spec s Hb)
    as (full & s1 & Hfull' & Hclear' & Hb' & _ & _ & Hscore & Hlines & _).
  rewrite Hfull in Hfull'. injection Hfull' as <-.
  rewrite Hclear in Hclear'. injection Hclear' as <-. cbn [length] in Hlines.
  exists s'. split_and!; try assumption; try lia.
  - rewrite Hboard. reflexivity.
  - intros j Hj. rewrite Hboard.
    change (delete (Z.to_nat i) (board s) !! j = board s !! j).
    apply list_lookup_delete_lt, Hj.
  - intros j Hj. rewrite Hboard. destruct j as [|j]; [lia|].
    change (delete (Z.to_nat i) (board s) !! j = board s !! S j).
    apply list_lookup_delete_ge. lia.
  - destruct (full_rows_total (board s') (Py.range ROWS) Hb' (range_Forall ROWS))
      as (full' & Hf' & _).
    rewrite Hf'. f_equal. destruct full' as [|j rest]; [reflexivity|]. exfalso.
    destruct (full_rows_elem (board s') _ _ Hb' (range_Forall ROWS) Hf' j) as [Hin _].
    destruct Hin as (Hj & row & Hrow & Hrf); [apply list_elem_of_here|].
    apply elem_of_range in Hj. rewrite Hboard in Hrow.
    destruct (Z.to_nat j) as [|n] eqn:Hn.
    + cbn in Hrow. injection Hrow as <-. discriminate.
    + change (delete (Z.to_nat i) (board s) !! n = Some row) in Hrow.
      rewrite list_lookup_delete in Hrow.
      destruct (decide (n < Z.to_nat i)%nat) as [Hlt|Hge].
      * destruct (full_rows_elem (board s) _ _ Hb (range_Forall ROWS) Hfull (Z.of_nat n))
          as [_ Hback].
        assert (Hmem : Z.of_nat n ∈ [i]).
        { apply Hback. split; [apply elem_of_range; lia|].
          exists row. rewrite Nat2Z.id. auto. }
        apply list_elem_of_singleton in Hmem. lia.
      * destruct (full_rows_elem (board s) _ _ Hb (range_Forall ROWS) Hfull (Z.of_nat (S n)))
          as [_ Hback].
        assert (Hmem : Z.of_nat (S n) ∈ [i]).
        { apply Hback. split; [apply elem_of_range; lia|].
          exists row. rewrite Nat2Z.id. auto. }
        apply list_elem_of_singleton in Hmem. lia.
Qed.

Lemma clear_one_row_shifts_witness :
  ∃ s', clear_lines ninth_line_state = Ok s'
        ∧ 0 ≤ 19 < ROWS
        ∧ board s' !! 0%nat = Some empty_row
        ∧ (∀ j, (j < Z.to_nat 19)%nat → board s' !! S j = board ninth_line_state !! j)
        ∧ (∀ j, (Z.to_nat 19 < j)%nat → board s' !! j = board ninth_line_state !! j)
        ∧ full_rows (board s') (Py.range ROWS) = Ok []
        ∧ lines s' = 9 + 1
        ∧ score s' = 900 + 100 * 1.
Proof.
  apply (clear_one_row_shifts ninth_line_state 19); [wf_board_all|].
  vm_compute. reflexivity.
Defined.

(** ** Drawing *)

Lemma draw_cell_in_canvas (x y : Z) (color : string) :
  0 ≤ x < COLS → 0 ≤ y < ROWS → Forall in_canvas (draw_cell x y color).
Proof.
  intros Hx Hy. unfold draw_cell.
  repeat constructor; cbn; unfold W, H, CELL, COLS, ROWS in *; lia.
Qed.

Lemma in_range_test (x y : Z) :
  (0 <=? x) && (x <? COLS) && (0 <=? y) && (y <? ROWS) = true
  ↔ (0 ≤ x < COLS ∧ 0 ≤ y < ROWS).
Proof. rewrite !andb_true_iff, !Z.leb_le, !Z.ltb_lt. tauto. Qed.

Lemma draw_piece_loop_clipped (piece : Piece.t) (color : string) (bs : list (Z * Z)) :
  Forall in_canvas (draw_piece_loop piece color bs)
  ∧ (length (draw_piece_loop piece color bs) ≤ 2 * length bs)%nat
  ∧ (Forall (in_board piece) bs →
     length (draw_piece_loop piece color bs) = (2 * length bs)%nat).
Proof.
  induction bs as [|[bx by_] rest (IHc & IHl & IHe)]; [cbn; auto|].
  cbn [draw_piece_loop].
  destruct ((0 <=? Piece.x piece + bx) && (Piece.x piece + bx <? COLS)
            && (0 <=? Piece.y piece + by_) && (Piece.y piece + by_ <? ROWS)) eqn:Hin.
  - apply in_range_test in Hin as [Hx Hy]. split_and!.
    + apply Forall_app. split; [apply draw_cell_in_canvas; assumption|exact IHc].
    + rewrite length_app. cbn [length draw_cell]. lia.
    + intros Hall. apply Forall_cons in Hall as [_ Hall]. specialize (IHe Hall).
      rewrite length_app. cbn [length draw_cell]. lia.
  - split_and!.
    + exact IHc.
    + cbn [app length]. lia.
    + intros Hall. apply Forall_cons in Hall as [Hblk _]. exfalso.
      unfold in_board in Hblk. cbn [fst snd] in Hblk.
      apply in_range_test in Hblk. congruence.
Qed.



Lemma draw_ghost_loop_clipped (gho : Piece.t) (bs : list (Z * Z)) :
  Forall in_canvas (draw_ghost_loop gho bs)
  ∧ (Forall (in_board gho) bs → length (draw_ghost_loop gho bs) = length bs).
Proof.
  induction bs as [|[bx by_] rest (IHc & IHe)]; [cbn; auto|].
  cbn [draw_ghost_loop].
  destruct ((0 <=? Piece.x gho + bx) && (Piece.x gho + bx <? COLS)
            && (0 <=? Piece.y gho + by_) && (Piece.y gho + by_ <? ROWS)) eqn:Hin.
  - apply in_range_test in Hin as [Hx Hy]. split.
    + cbn [app]. constructor; [|exact IHc].
      unfold in_canvas. cbn. unfold W, H, CELL, COLS, ROWS in *. lia.
    + intros Hall. apply Forall_cons in Hall as [_ Hall]. specialize (IHe Hall).
      cbn [app length]. lia.
  - split; [exact IHc|].
    intros Hall. apply Forall_cons in Hall as [Hblk _]. exfalso.
    unfold in_board in Hblk. cbn [fst snd] in Hblk.
    apply in_range_test in Hblk. congruence.
Qed.

Lemma draw_grid_row_spec (b : Board) (r : Z) (cs : list Z) :
  wf_board b → 0 ≤ r < ROWS → Forall (λ c, 0 ≤ c < COLS) cs →
  ∃ rects, draw_grid_row b r cs = Ok rects
           ∧ Forall in_canvas rects
           ∧ (length cs ≤ length rects ≤ 2 * length cs)%nat.
Proof.
  intros Hb Hr. induction 1 as [|c cs Hc _ (more & Hmore & Hin & Hlen)].
  - exists []. cbn. split_and!; [reflexivity|constructor|lia|lia].
  - cbn [draw_grid_row].
    destruct (wf_board_row b r Hb Hr) as (row & _ & Hg & Hrl). rewrite Hg.
    cbn [mbind result_bind].
    destruct (getitem_in_range row c) as (v & _ & Hv); [lia|]. rewrite Hv.
    cbn [mbind result_bind]. rewrite Hmore. cbn [mbind result_bind].
    eexists. split; [reflexivity|].
    assert (Hone : Forall in_canvas
              [mkRect (c * CELL) (r * CELL) (c * CELL + CELL) (r * CELL + CELL)
                 (Some (if (r + c) `mod` 2 =? 0 then "#0e0e13" else "#101019"))
                 "#1b1b22" None]).
    { repeat constructor; cbn; unfold W, H, CELL, COLS, ROWS in *; lia. }
    destruct v as [color|]; [destruct (truthy (Some color))|];
      (split; [apply Forall_app; split;
                 [first [apply draw_cell_in_canvas; assumption|exact Hone]|exact Hin]
              |rewrite length_app; cbn [length draw_cell]; lia]).
Qed.

Lemma draw_grid_rows_spec (b : Board) (rs : list Z) :
  wf_board b → Forall (λ r, 0 ≤ r < ROWS) rs →
  ∃ rects, draw_grid_rows b rs = Ok rects
           ∧ Forall in_canvas rects
           ∧ (length rs * Z.to_nat COLS ≤ length rects
              ≤ 2 * (length rs * Z.to_nat COLS))%nat.
Proof.
  intros Hb. induction 1 as [|r rs Hr _ (more & Hmore & Hin & Hlen)].
  - exists []. cbn. split_and!; [reflexivity|constructor|lia|lia].
  - cbn [draw_grid_rows].
    destruct (draw_grid_row_spec b r (Py.range COLS) Hb Hr (range_Forall COLS))
      as (here & Hhere & Hhin & Hhlen).
    rewrite Hhere. cbn [mbind result_bind]. rewrite Hmore. cbn [mbind result_bind].
    exists (here ++ more). split; [reflexivity|]. split; [apply Forall_app; auto|].
    rewrite length_app. cbn [length].
    assert (Hrange : length (Py.range COLS) = Z.to_nat COLS).
    { unfold Py.range. rewrite length_fmap, length_seq. reflexivity. }
    rewrite Hrange in Hhlen. lia.
Qed.

Lemma reachable_piece_free_aux (s : Tetris.t) :
  Inv s →
  ∃ bs, Piece.blocks (cur s) = Ok bs ∧ length bs = 4%nat ∧ Forall (in_board (cur s)) bs.
Proof.
  intros HI. destruct (blocks_wf (cur s) (inv_cur s HI)) as [bs Hbs]. exists bs.
  split_and!; [exact Hbs| |apply (inv_in_board s HI), Hbs].
  pose proof (blocks_shape _ _ Hbs) as Hok. unfold shape_ok in Hok.
  destruct bs as [|[bx0 by0] rest]; [discriminate|].
  rewrite !andb_true_iff in Hok. destruct Hok as [[Hlen _] _].
  apply Nat.eqb_eq in Hlen. exact Hlen.
Qed.

(** X18: in every reachable state [draw_grid], [draw_ghost] and
    [draw_piece] of the current piece return without an exception and draw
    inside the canvas only: between one and two rectangles for each of the
    cells of the board, the four outlines of the ghost and the eight
    rectangles of the piece. *)
Theorem draw_reachable (s : Tetris.t) :
  reachable s →
  ∃ grid ghost piece,
    draw_grid s = Ok grid
    ∧ draw_ghost s = Ok ghost
    ∧ draw_piece (cur s) (COLORS (Piece.kind (cur s))) = Ok piece
    ∧ Forall in_canvas (grid ++ ghost ++ piece)
    ∧ (200 ≤ length grid ≤ 400)%nat
    ∧ length ghost = 4%nat
    ∧ length piece = 8%nat.
Proof.
  intros Hr. pose proof (reachable_Inv s Hr) as HI.
  destruct (draw_grid_rows_spec (board s) (Py.range ROWS) (inv_board s HI) (range_Forall ROWS))
    as (grid & Hgrid & Hgin & Hglen).
  assert (Hrows : length (Py.range ROWS) = 20%nat) by reflexivity.
  rewrite Hrows in Hglen. change (Z.to_nat COLS) with 10%nat in Hglen.
  destruct (reachable_piece_free_aux s HI) as (bs & Hbs & Hlen & Hall).
  destruct (drop_loop_spec (drop_fuel (cur s)) s (cur s) 0 (inv_board s HI) (inv_cur s HI))
    as (d & Hloop & _); [unfold drop_fuel; lia|].
  assert (Hg : ghost_piece s = Ok (Nat.iter d down (cur s))).
  { unfold ghost_piece. rewrite piece_eta, (ghost_loop_drop_loop _ s (cur s) 0), Hloop.
    reflexivity. }
  assert (Hgbs : Piece.blocks (Nat.iter d down (cur s)) = Ok bs).
  { rewrite iter_down. exact Hbs. }
  pose proof (drop_loop_in_board s _ _ bs HI Hloop Hgbs) as Hgall.
  destruct (draw_ghost_loop_clipped (Nat.iter d down (cur s)) bs) as (Hghc & Hghl).
  destruct (draw_piece_loop_clipped (cur s) (COLORS (Piece.kind (cur s))) bs)
    as (Hpc & _ & Hpl).
  exists grid, (draw_ghost_loop (Nat.iter d down (cur s)) bs),
    (draw_piece_loop (cur s) (COLORS (Piece.kind (cur s))) bs).
  split_and!.
  - exact Hgrid.
  - unfold draw_ghost. rewrite Hg. cbn [mbind result_bind]. rewrite Hgbs. reflexivity.
  - unfold draw_piece. rewrite Hbs. reflexivity.
  - rewrite !Forall_app. auto.
  - lia.
  - lia.
  - rewrite (Hghl Hgall). exact Hlen.
  - rewrite (Hpl Hall), Hlen. reflexivity.
Qed.

Lemma draw_reachable_witness :
  ∃ grid ghost piece,
    draw_grid (init KT KO []) = Ok grid
    ∧ draw_ghost (init KT KO []) = Ok ghost
    ∧ draw_piece (Piece.new KT) (COLORS KT) = Ok piece
    ∧ Forall in_canvas (grid ++ ghost ++ piece)
    ∧ (200 ≤ length grid ≤ 400)%nat
    ∧ length ghost = 4%nat
    ∧ length piece = 8%nat.
Proof. apply (draw_reachable (init KT KO [])). apply reach_init. Defined.

(** ** Players *)

Lemma find_user_app (name : string) (users : list (gmap string string))
    (rec : gmap string string) :
  find_user name (users ++ [rec])
  = match find_user name users with
    | Some r => Some r
    | None => if decide (rec !! "name" = Some name) then Some rec else None
    end.
Proof.
  unfold find_user. rewrite filter_app.
  destruct (filter _ users) as [|r rest]; [|reflexivity].
  cbn [app head]. rewrite filter_cons, filter_nil.
  destruct (decide (rec !! "name" = Some name)); reflexivity.
Qed.

(** X19: a player created under a name the collection does not have yet
    is verified with the password given, and with another password exactly
    when the two hash alike under the stored salt; the answers for every
    other name stay as they were. *)
Theorem create_then_verify (sha256_hex : string → string)
    (name password salt now : string) (users : list (gmap string string)) :
  find_user name users = None → password ≠ "" →
  ∃ users',
    create_user sha256_hex name password salt now users = inr users'
    ∧ length users' = S (length users)
    ∧ verify_user sha256_hex name password users' = true
    ∧ (∀ pw, verify_user sha256_hex name pw users'
             = bool_decide (sha256_hex (salt +:+ pw) = sha256_hex (salt +:+ password)))
    ∧ (∀ other pw, other ≠ name →
         verify_user sha256_hex other pw users' = verify_user sha256_hex other pw users).
Proof.
  intros Hnew Hpw. unfold create_user.
  destruct (String.eqb_spec password ""); [contradiction|].
  eexists. split; [reflexivity|]. split; [rewrite length_app; cbn; lia|].
  set (rec := ({[ "name" := name; "salt" := salt;
                  "hash" := _hash_pw sha256_hex password salt;
                  "created" := now +:+ "Z" ]} : gmap string string)).
  assert (Hname : rec !! "name" = Some name) by reflexivity.
  assert (Hsalt : rec !! "salt" = Some salt) by reflexivity.
  assert (Hhash : rec !! "hash" = Some (_hash_pw sha256_hex password salt)) by reflexivity.
  assert (Hne : rec ≠ ∅).
  { intros Hempty. rewrite Hempty in Hname. discriminate. }
  assert (Hverify : ∀ pw, verify_user sha256_hex name pw (users ++ [rec])
             = bool_decide (sha256_hex (salt +:+ pw) = sha256_hex (salt +:+ password))).
  { intros pw. unfold verify_user. rewrite find_user_app, Hnew.
    rewrite decide_True by exact Hname. rewrite decide_False by exact Hne.
    rewrite Hsalt, Hhash. cbn [default]. unfold _hash_pw.
    apply bool_decide_ext. split; [intros [= Heq]; exact Heq|intros Heq; f_equal; exact Heq]. }
  split_and!.
  - rewrite Hverify. apply bool_decide_eq_true. reflexivity.
  - exact Hverify.
  - intros other pw Hother. unfold verify_user. rewrite find_user_app.
    destruct (find_user other users); [reflexivity|].
    rewrite decide_False; [reflexivity|]. rewrite Hname. congruence.
Qed.

Lemma create_then_verify_witness :
  ∃ users',
    create_user id "ann" "secret" "a1b2" "2026-01-01T00:00:00" [] = inr users'
    ∧ length users' = 1%nat
    ∧ verify_user id "ann" "secret" users' = true
    ∧ (∀ pw, verify_user id "ann" pw users'
             = bool_decide ("a1b2" +:+ pw = "a1b2" +:+ "secret"))
    ∧ (∀ other pw, other ≠ "ann" →
         verify_user id other pw users' = verify_user id other pw []).
Proof.
  apply (create_then_verify id "ann" "secret" "a1b2" "2026-01-01T00:00:00" []).
  - reflexivity.
  - discriminate.
Defined.

Lemma find_user_name (name : string) (users : list (gmap string string))
    (rec : gmap string string) :
  find_user name users = Some rec → rec ∈ users ∧ rec !! "name" = Some name.
Proof.
  unfold find_user. intros Hf.
  destruct (filter _ users) as [|r rest] eqn:Hfilter; [discriminate|].
  injection Hf as ->.
  assert (Hin : rec ∈ filter (λ rec, rec !! "name" = Some name) users)
    by (rewrite Hfilter; apply list_elem_of_here).
  apply list_elem_of_filter in Hin. tauto.
Qed.

(** X20: [create_user] refuses an empty password with the [ValueError] and
    adds nothing; [verify_user] answers [False] for every name no document
    has, and for a document without a [hash] field. *)
Theorem auth_refusals (sha256_hex : string → string) (name password salt now : string)
    (users : list (gmap string string)) :
  create_user sha256_hex name "" salt now users = inl "Password required"
  ∧ ((∀ rec, rec ∈ users → rec !! "name" ≠ Some name) →
     verify_user sha256_hex name password users = false)
  ∧ (∀ rec, find_user name users = Some rec → rec !! "hash" = None →
     verify_user sha256_hex name password users = false).
Proof.
  split_and!.
  - reflexivity.
  - intros Hnone. unfold verify_user.
    destruct (find_user name users) as [rec|] eqn:Hf; [|reflexivity].
    apply find_user_name in Hf as [Hin Hname]. destruct (Hnone rec Hin Hname).
  - intros rec Hf Hhash. unfold verify_user. rewrite Hf.
    destruct (decide (rec = ∅)); [reflexivity|]. rewrite Hhash.
    apply bool_decide_eq_false. discriminate.
Qed.

Lemma auth_refusals_witness :
  create_user id "bob" "" "a1b2" "2026-01-01T00:00:00" [{[ "name" := "bob" ]}]
  = inl "Password required"
  ∧ verify_user id "zoe" "secret" [{[ "name" := "bob" ]}] = false
  ∧ verify_user id "bob" "secret" [{[ "name" := "bob" ]}] = false.
Proof.
  destruct (auth_refusals id "bob" "secret" "a1b2" "2026-01-01T00:00:00"
              [{[ "name" := "bob" ]}]) as (Hcreate & _ & Hhash).
  destruct (auth_refusals id "zoe" "secret" "a1b2" "2026-01-01T00:00:00"
              [{[ "name" := "bob" ]}]) as (_ & Hnone & _).
  split_and!.
  - exact Hcreate.
  - apply Hnone. intros rec Hin. apply list_elem_of_singleton in Hin as ->. discriminate.
  - apply (Hhash {[ "name" := "bob" ]}); reflexivity.
Defined.
(** ** Moves that lock and moves that do not *)

(** X21: in a reachable running game [hard_drop] always ends the life of
    the current piece: the piece that was next becomes current, at its
    spawn position, and the kind drawn becomes the next piece. *)
Theorem hard_drop_spawns (nk : Kind) (s : Tetris.t) :
  reachable s → paused s = false → game_over s = false →
  ∃ s', hard_drop nk s = Ok s'
        ∧ cur s' = next s
        ∧ cur s' = Piece.mk (Piece.kind (next s)) 0 3 0
        ∧ next s' = Piece.mk nk 0 3 0
        ∧ paused s' = false.
Proof.
  intros Hr Hp Hgo. pose proof (reachable_Inv s Hr) as HI.
  destruct (drop_loop_spec (drop_fuel (cur s)) s (cur s) 0 (inv_board s HI) (inv_cur s HI))
    as (d & Hloop & _); [unfold drop_fuel; lia|].
  destruct (blocks_wf _ (iter_down_wf d (cur s) (inv_cur s HI))) as [bs Hbs].
  pose proof (drop_loop_in_board s _ _ bs HI Hloop Hbs) as Hin.
  destruct (lock_spec nk (with_cur s (Nat.iter d down (cur s))) bs
              (inv_board s HI) (Inv_next_wf s HI) Hbs Hin)
    as (b & s1 & v & _ & Hwb & Hclear & _ & Hlock).
  destruct (clear_lines_spec (with_board (with_cur s (Nat.iter d down (cur s))) b) Hwb)
    as (full & s1' & _ & Hclear' & _ & _ & _ & _ & _ & Hp1 & _).
  rewrite Hclear in Hclear'. injection Hclear' as <-. cbn in Hp1.
  unfold hard_drop. rewrite Hp, Hgo. cbn [orb]. rewrite Hloop.
  cbn [mbind result_bind]. rewrite Hlock. cbn [mbind result_bind].
  eexists. split; [reflexivity|]. cbn [with_cur next] in *.
  pose proof (inv_next s HI) as Hn.
  destruct v; cbn.
  - split_and!; [reflexivity|exact Hn|reflexivity|congruence].
  - match goal with |- context [persist_game ?x] =>
      destruct (persist_game_fields x) as (_ & -> & -> & _ & _ & _ & _ & -> & _) end.
    cbn. split_and!; [reflexivity|exact Hn|reflexivity|congruence].
Qed.

Lemma hard_drop_spawns_witness :
  ∃ s', hard_drop KS (init KI KO []) = Ok s'
        ∧ cur s' = Piece.new KO
        ∧ cur s' = Piece.mk KO 0 3 0
        ∧ next s' = Piece.mk KS 0 3 0
        ∧ paused s' = false.
Proof.
  apply (hard_drop_spawns KS (init KI KO [])); [apply reach_init|reflexivity|reflexivity].
Defined.

(** X22: a move that is not one row down never locks: [move(dx, dy)] with
    [dy] other than 1 either leaves the state as it is or replaces the
    current piece by the moved one, which [valid] accepts; the board, the
    next piece, the counters, the flags and the [Game] table stay. *)
Theorem move_never_locks (dx dy : Z) (nk : Kind) (s s' : Tetris.t) :
  dy ≠ 1 → move dx dy nk s = Ok s' →
  s' = s
  ∨ (s' = with_cur s (Piece.moved (cur s) dx dy)
     ∧ valid s (Piece.moved (cur s) dx dy) = Ok true
     ∧ paused s = false ∧ game_over s = false).
Proof.
  intros Hdy. unfold move.
  destruct (paused s || game_over s) eqn:Hflags; [intros [= <-]; auto|].
  apply orb_false_iff in Hflags as [Hp Hgo].
  intros Hm. apply bind_Ok in Hm as (v & Hv & Hm). destruct v.
  - injection Hm as <-. auto.
  - destruct (Z.eqb_spec dy 1); [contradiction|]. injection Hm as <-. auto.
Qed.

Lemma move_never_locks_witness :
  left_wall_state = left_wall_state
  ∨ (left_wall_state
     = with_cur left_wall_state (Piece.moved (cur left_wall_state) (-1) 0)
     ∧ valid left_wall_state (Piece.moved (cur left_wall_state) (-1) 0) = Ok true
     ∧ paused left_wall_state = false ∧ game_over left_wall_state = false).
Proof.
  apply (move_never_locks (-1) 0 KO left_wall_state left_wall_state); [lia|reflexivity].
Defined.
